(** * js-libp2p-kad-dht: network layer, DHT root and ping arbitration

    A shallow embedding of [src/network.ts] (class [Network]), of the DHT
    root class [KadDHT] and of the routing table's ping arbitration.

    Asynchronous functions and async generators are embedded as
    _routines_: finite trees whose nodes are the calls made to a
    collaborator (connection manager, stream, registrar, ...), the points
    where a generator is suspended on a [yield], and whose leaves are
    JavaScript completions (normal, [return], [throw]).  A consumer drives
    a routine with [next()], [return()] and [throw(e)]; the result is the
    ordered record of what was yielded and what was called. *)

From Stdlib Require Import List String ZArith QArith Qround Bool Lia.
From Stdlib Require Import Strings.Byte.
Import ListNotations.
Local Open Scope string_scope.
Local Open Scope list_scope.

(* ================================================================== *)
(** * JavaScript control flow *)
(* ================================================================== *)

Module JS.

(** An [Error] object: its message and the [code] property. *)
Record Error : Type := mkError { message : string; code : option string }.

(** [new Error(msg)] *)
Definition newError (msg : string) : Error :=
  {| message := msg; code := None |}.

(** [errcode(err, code)] of the err-code package. *)
Definition errcode (err : Error) (c : string) : Error :=
  {| message := message err; code := Some c |}.

(** A settled promise, as seen by [await]. *)
Inductive settled (A : Type) : Type :=
| Resolved (a : A)
| Rejected (e : Error).
Arguments Resolved {A} a.
Arguments Rejected {A} e.

(** Completion of a block of statements. *)
Inductive completion (A : Type) : Type :=
| Normal (a : A)
| Returned
| Thrown (e : Error).
Arguments Normal {A} a.
Arguments Returned {A}.
Arguments Thrown {A} e.

(** How the consumer of a generator resumes it. *)
Inductive resume : Type :=
| Next
| Return
| Throw (e : Error).

Section Routine.

Variable St : Type.   (* local variables and the fields of [this] *)
Variable Ev : Type.   (* values handed out by [yield] *)
Variable Io : Type.   (* calls made to collaborators *)

Inductive routine (A : Type) : Type :=
| Halt (s : St) (c : completion A)
| Perform (io : Io) (k : routine A)
| Suspend (ev : Ev) (k : resume -> routine A).
Arguments Halt {A} s c.
Arguments Perform {A} io k.
Arguments Suspend {A} ev k.

(** A statement (or expression) run from a given store. *)
Definition js (A : Type) : Type := St -> routine A.

Fixpoint bind_routine {A B : Type} (p : routine A) (f : A -> js B)
  : routine B :=
  match p with
  | Halt s (Normal a) => f a s
  | Halt s Returned => Halt s Returned
  | Halt s (Thrown e) => Halt s (Thrown e)
  | Perform io k => Perform io (bind_routine k f)
  | Suspend ev k => Suspend ev (fun r => bind_routine (k r) f)
  end.

Definition bind {A B : Type} (m : js A) (f : A -> js B) : js B :=
  fun s => bind_routine (m s) f.

Definition ret {A : Type} (a : A) : js A := fun s => Halt s (Normal a).

(** [throw e] *)
Definition throw {A : Type} (e : Error) : js A := fun s => Halt s (Thrown e).

(** The [return] statement. *)
Definition return_ {A : Type} : js A := fun s => Halt s Returned.

(** Reading and assigning the store. *)
Definition get : js St := fun s => Halt s (Normal s).
Definition put (s' : St) : js unit := fun _ => Halt s' (Normal tt).

(** A synchronous call to a collaborator that returns nothing. *)
Definition call (io : Io) : js unit := fun s => Perform io (Halt s (Normal tt)).

(** [await p], where the call [io] produced the promise and the
    environment settles it as [r]. *)
Definition await {A : Type} (io : Io) (r : settled A) : js A :=
  fun s => Perform io
    (match r with
     | Resolved a => Halt s (Normal a)
     | Rejected e => Halt s (Thrown e)
     end).

(** A call that returns a value or throws, with no collaborator involved. *)
Definition lift {A : Type} (r : settled A) : js A :=
  fun s => match r with
           | Resolved a => Halt s (Normal a)
           | Rejected e => Halt s (Thrown e)
           end.

(** [yield ev]: the generator is suspended; [next()] lets it go on,
    [return()] and [throw(e)] make the [yield] expression complete abruptly. *)
Definition yield (ev : Ev) : js unit :=
  fun s => Suspend ev (fun r =>
    match r with
    | Next => Halt s (Normal tt)
    | Return => Halt s Returned
    | Throw e => Halt s (Thrown e)
    end).

(** [try { body } catch (err) { handler err }] *)
Fixpoint catch_routine {A : Type} (p : routine A) (handler : Error -> js A)
  : routine A :=
  match p with
  | Halt s (Thrown e) => handler e s
  | Halt s c => Halt s c
  | Perform io k => Perform io (catch_routine k handler)
  | Suspend ev k => Suspend ev (fun r => catch_routine (k r) handler)
  end.

Definition try_catch {A : Type} (body : js A) (handler : Error -> js A) : js A :=
  fun s => catch_routine (body s) handler.

(** [try { body } finally { finalizer }]: the finalizer runs on every
    completion of the body; when it completes normally the body's
    completion is restored, otherwise its own completion wins. *)
Fixpoint finally_routine {A : Type} (p : routine A) (finalizer : js unit)
  : routine A :=
  match p with
  | Halt s c => bind_routine (finalizer s) (fun _ s' => Halt s' c)
  | Perform io k => Perform io (finally_routine k finalizer)
  | Suspend ev k => Suspend ev (fun r => finally_routine (k r) finalizer)
  end.

Definition try_finally {A : Type} (body : js A) (finalizer : js unit) : js A :=
  fun s => finally_routine (body s) finalizer.

(** [try { body } catch (err) { handler err } finally { finalizer }] *)
Definition try_catch_finally {A : Type}
  (body : js A) (handler : Error -> js A) (finalizer : js unit) : js A :=
  try_finally (try_catch body handler) finalizer.

(** A run of calls that return nothing, followed by [k]. *)
Fixpoint performs {A : Type} (ios : list Io) (k : routine A) : routine A :=
  match ios with
  | [] => k
  | io :: ios' => Perform io (performs ios' k)
  end.

(** [list.forEach(f)] *)
Fixpoint forEach {A : Type} (l : list A) (f : A -> js unit) : js unit :=
  match l with
  | [] => ret tt
  | x :: l' => bind (f x) (fun _ => forEach l' f)
  end.

(** ** Running a routine *)

(** What an observer sees, in order. *)
Inductive item : Type :=
| Yielded (ev : Ev)
| Called (io : Io).

(** The record of a run and, when the routine ran to its end, the final
    store and completion ([None]: the generator is still suspended). *)
Definition run (A : Type) : Type := (list item * option (St * completion A))%type.

Definition observe {A : Type} (i : item) (r : run A) : run A :=
  (i :: fst r, snd r).

(** A consumer that resumes the generator with the commands of [script],
    one per suspension, and then leaves it alone. *)
Fixpoint drive {A : Type} (p : routine A) (script : list resume) : run A :=
  match p with
  | Halt s c => ([], Some (s, c))
  | Perform io k => observe (Called io) (drive k script)
  | Suspend ev k =>
      match script with
      | [] => ([Yielded ev], None)
      | r :: script' => observe (Yielded ev) (drive (k r) script')
      end
  end.

(** A generator object is created suspended at the start of its body:
    the first [next()] runs the body, [return()] and [throw(e)] complete
    it without running anything. *)
Definition generator {A : Type} (body : js A) (s0 : St) (script : list resume)
  : run A :=
  match script with
  | [] => ([], None)
  | Next :: script' => drive (body s0) script'
  | Return :: _ => ([], Some (s0, Returned))
  | Throw e :: _ => ([], Some (s0, Thrown e))
  end.

(** [for await (const ev of gen) { ... }] without [break]: every
    suspension is resumed with [next()] until the generator is done. *)
Fixpoint drain {A : Type} (p : routine A) : list item * (St * completion A) :=
  match p with
  | Halt s c => ([], (s, c))
  | Perform io k => let r := drain k in (Called io :: fst r, snd r)
  | Suspend ev k => let r := drain (k Next) in (Yielded ev :: fst r, snd r)
  end.

(** An async function is a routine that never yields; awaiting it gives
    back its calls and its completion. *)
Definition yielded (l : list item) : list Ev :=
  flat_map (fun i => match i with Yielded ev => [ev] | Called _ => [] end) l.

Definition called (l : list item) : list Io :=
  flat_map (fun i => match i with Yielded _ => [] | Called io => [io] end) l.

End Routine.

Arguments Halt {St Ev Io A} s c.
Arguments Perform {St Ev Io A} io k.
Arguments Suspend {St Ev Io A} ev k.
Arguments bind_routine {St Ev Io A B} p f.
Arguments catch_routine {St Ev Io A} p handler.
Arguments finally_routine {St Ev Io A} p finalizer.
Arguments observe {St Ev Io A} i r.
Arguments bind {St Ev Io A B} m f.
Arguments ret {St Ev Io A} a.
Arguments throw {St Ev Io A} e.
Arguments return_ {St Ev Io A}.
Arguments get {St Ev Io}.
Arguments put {St Ev Io} s'.
Arguments call {St Ev Io} io.
Arguments await {St Ev Io A} io r.
Arguments lift {St Ev Io A} r.
Arguments yield {St Ev Io} ev.
Arguments try_catch {St Ev Io A} body handler.
Arguments try_finally {St Ev Io A} body finalizer.
Arguments try_catch_finally {St Ev Io A} body handler finalizer.
Arguments forEach {St Ev Io A} l f.
Arguments performs {St Ev Io A} ios k.
Arguments Yielded {Ev Io} ev.
Arguments Called {Ev Io} io.
Arguments drive {St Ev Io A} p script.
Arguments generator {St Ev Io A} body s0 script.
Arguments drain {St Ev Io A} p.
Arguments yielded {Ev Io} l.
Arguments called {Ev Io} l.

(** Whether a finished run threw. *)
Definition throws {A : Type} (c : completion A) : bool :=
  match c with Thrown _ => true | _ => false end.

End JS.

Declare Scope js_scope.
Delimit Scope js_scope with js.
Notation "x <- m ;; k" := (JS.bind m (fun x => k))
  (at level 61, m at next level, right associativity) : js_scope.
Notation "m ;; k" := (JS.bind m (fun _ => k))
  (at level 61, right associativity) : js_scope.

(* ================================================================== *)
(** * Values exchanged with the host (libp2p interfaces) *)
(* ================================================================== *)

Module Libp2p.
Import JS.

Definition PeerId : Type := string.
Definition Multiaddr : Type := string.
Definition Uint8Array : Type := list Byte.byte.

(** [PeerInfo] of @libp2p/interfaces/peer-info. *)
Record PeerInfo : Type := mkPeerInfo {
  id : PeerId;
  multiaddrs : list Multiaddr;
  protocols : list string
}.

(** [AbortSignal].  Time is counted in completed operations on the
    stream a signal is attached to (the write, then each chunk read):
    [aborts_after = Some n] fires once [n] of them have completed,
    [None] never fires during the call. *)
Record AbortSignal : Type := mkAbortSignal { aborts_after : option nat }.

Record AbortOptions : Type := mkAbortOptions { signal : option AbortSignal }.

(** An async iterable of byte arrays ([Source<Uint8Array>]): chunks,
    until it ends or throws. *)
Inductive Source : Type :=
| Ended
| Chunk (buf : Uint8Array) (rest : Source)
| Failed (e : Error).

(** A [Stream] (a duplex of byte arrays).  [sink] settles the write of
    the bytes piped into it, [source] is what the remote sends back for
    them.  The two sides of a duplex go on at the same time: [ready] is
    the number of chunks of [source] that are already there when a
    rejection of the write comes in, for a reader that does not wait for
    the write. *)
Record Stream : Type := mkStream {
  stream_id : nat;
  sink : Uint8Array -> settled unit;
  source : Uint8Array -> Source;
  ready : nat
}.

(** [newStream] resolves with [{ stream }]; the wrapper is left out. *)
Record Connection : Type := mkConnection {
  newStream : string -> settled Stream
}.

Record ConnectionManager : Type := mkConnectionManager {
  openConnection : PeerId -> AbortOptions -> settled Connection
}.

(** A stream handler is identified by the method that was bound. *)
Definition StreamHandler : Type := string.

Record Registrar : Type := mkRegistrar {
  unhandle : string -> settled unit;
  handle : string -> StreamHandler -> settled unit
}.

(** [Components]: a getter throws when its component was not set. *)
Record Components : Type := mkComponents {
  getConnectionManager : settled ConnectionManager;
  getRegistrar : settled Registrar
}.

(** [new Components()] *)
Definition newComponents : Components :=
  {| getConnectionManager :=
       Rejected (errcode (newError "connectionManager not set") "ERR_SERVICE_MISSING");
     getRegistrar :=
       Rejected (errcode (newError "registrar not set") "ERR_SERVICE_MISSING") |}.

(** The error of abortable-iterator. *)
Definition AbortError : Error :=
  {| message := "The operation was aborted"; code := Some "ABORT_ERR" |}.

Fixpoint abortableSource (budget : nat) (src : Source) : Source :=
  match budget with
  | O => Failed AbortError
  | S b =>
      match src with
      | Chunk buf rest => Chunk buf (abortableSource b rest)
      | Ended => Ended
      | Failed e => Failed e
      end
  end.

(** [abortableDuplex(stream, signal)] *)
Definition abortableDuplex (stream : Stream) (sig : AbortSignal) : Stream :=
  match aborts_after sig with
  | None => stream
  | Some O =>
      {| stream_id := stream_id stream;
         sink := fun _ => Rejected AbortError;
         source := fun _ => Failed AbortError;
         ready := ready stream |}
  | Some (S n) =>
      {| stream_id := stream_id stream;
         sink := sink stream;
         source := fun data => abortableSource n (source stream data);
         ready := ready stream |}
  end.

End Libp2p.

(* ================================================================== *)
(** * Messages and query events *)
(* ================================================================== *)

Module Message.
Import Libp2p.

(** Modelled from the spec: [message/index.js] is absent; the fields are
    those of the wire schema (type, key, record, closerPeers,
    providerPeers). *)
Inductive MessageType : Type :=
| PUT_VALUE | GET_VALUE | ADD_PROVIDER | GET_PROVIDERS | FIND_NODE | PING.

Record Libp2pRecord : Type := mkRecord {
  record_key : Uint8Array;
  record_value : Uint8Array;
  timeReceived : string
}.

Record Message : Type := mkMessage {
  type : MessageType;
  key : Uint8Array;
  record : option Libp2pRecord;
  closerPeers : list PeerInfo;
  providerPeers : list PeerInfo
}.

End Message.

Module QueryEvents.
Import JS Libp2p Message.

(** Modelled from the spec: [query/events.js] is absent; the four
    events the network layer builds, with the fields it passes.  A field
    that is not passed ([closer], [providers], [record] in
    [sendMessage]) is the empty list or [None]. *)
Inductive QueryEvent : Type :=
| dialingPeerEvent (peer : PeerId)
| sendingQueryEvent (to : PeerId) (type : MessageType)
| peerResponseEvent (from : PeerId) (messageType : MessageType)
    (closer providers : list PeerInfo) (record : option Libp2pRecord)
| queryErrorEvent (from : PeerId) (error : Error).

End QueryEvents.

(* ================================================================== *)
(** * src/network.ts *)
(* ================================================================== *)

Module NetworkInit.
Record NetworkInit : Type := mkNetworkInit { protocol : string; lan : bool }.
End NetworkInit.

Module Network.
Import JS Libp2p Message QueryEvents.
Local Open Scope js_scope.

(** The fields of a [Network] ([log] left out). *)
Record Network : Type := mkNetwork {
  protocol : string;
  running : bool;
  components : Components
}.

Definition constructor (init : NetworkInit.NetworkInit) : Network :=
  {| running := false;
     protocol := NetworkInit.protocol init;
     components := newComponents |}.

Definition init (this : Network) (c : Components) : Network :=
  {| protocol := protocol this; running := running this; components := c |}.

Definition start (this : Network) : Network :=
  if running this then this
  else {| protocol := protocol this; running := true; components := components this |}.

Definition stop (this : Network) : Network :=
  {| protocol := protocol this; running := false; components := components this |}.

Definition isStarted (this : Network) : bool := running this.

(** The calls a [Network] makes, as an observer of the host sees them.
    [newStream_] carries the id of the stream it resolved with. *)
Inductive Io : Type :=
| openConnection_ (to : PeerId)
| newStream_ (protocol : string) (opened : option nat)
| sink_ (stream : nat) (data : Uint8Array)
| next_ (stream : nat)
| close_ (stream : nat)
| dispatchEvent_ (name : string) (detail : PeerInfo).

Definition async (St A : Type) : Type := js St QueryEvent Io A.

Definition opened_id (r : settled Stream) : option nat :=
  match r with
  | Resolved s => Some (stream_id s)
  | Rejected _ => None
  end.

Section Methods.

Variable serialize : Message -> Uint8Array.            (* [msg.serialize()] *)
Variable deserialize : Uint8Array -> settled Message.  (* [Message.deserialize] *)
Variable lp_encode : Uint8Array -> Uint8Array.         (* [lp.encode()] on [[msg]] *)
Variable lp_decode : Source -> Source.                 (* [lp.decode()] *)

(** [if (options.signal != null) { stream = abortableDuplex(stream, options.signal) }] *)
Definition abortable (stream : Stream) (options : AbortOptions) : Stream :=
  match signal options with
  | Some sig => abortableDuplex stream sig
  | None => stream
  end.

(** A duplex in the middle of a [pipe(...)] (it-pipe, it-merge):
    [duplex.sink(source)] is called and its promise is not awaited, and
    the next stage reads the readable side merged with the outcome of
    the write.  A resolved write adds nothing; the error of a rejected
    write ends what the next stage reads, after the [ready] chunks that
    came before it. *)
Fixpoint cut (e : Error) (ready : nat) (src : Source) : Source :=
  match ready with
  | O => Failed e
  | S n =>
      match src with
      | Chunk buf rest => Chunk buf (cut e n rest)
      | Ended => Failed e
      | Failed e' => Failed e'
      end
  end.

Definition merge (write : settled unit) (ready : nat) (src : Source) : Source :=
  match write with
  | Resolved _ => src
  | Rejected e => cut e ready src
  end.

(** What the stage after the duplex reads. *)
Definition piped (stream : Stream) (data : Uint8Array) : Source :=
  merge (sink stream data) (ready stream) (source stream data).

Arguments piped : simpl never.

(** The merge takes the readable side to its end on its own, whatever
    becomes of the write and however little the next stage reads. *)
Fixpoint pull {St : Type} (stream : Stream) (src : Source) : async St unit :=
  match src with
  | Chunk _ rest => call (next_ (stream_id stream)) ;; pull stream rest
  | Ended | Failed _ => call (next_ (stream_id stream))
  end.

Definition through {St : Type} (stream : Stream) (data : Uint8Array)
  : async St Source :=
  call (sink_ (stream_id stream) data) ;;
  pull stream (source stream data) ;;
  ret (piped stream data).

(** [first(source)] of it-first: the first item of the source, [None]
    for the [undefined] of a source that ends without one. *)
Definition first {St : Type} (src : Source) : async St (option Uint8Array) :=
  lift (match src with
        | Ended => Resolved None
        | Chunk buf _ => Resolved (Some buf)
        | Failed e => Rejected e
        end).

(** [drain(source)] of it-drain: takes the source to its end. *)
Fixpoint drain_ {St : Type} (src : Source) : async St unit :=
  match src with
  | Ended => ret tt
  | Chunk _ rest => drain_ rest
  | Failed e => throw e
  end.

Definition ERR_NO_MESSAGE_RECEIVED : Error :=
  errcode (newError "No message received") "ERR_NO_MESSAGE_RECEIVED".

(** Write a message to the given stream. *)
Definition _writeMessage {St : Type}
  (stream : Stream) (msg : Uint8Array) (options : AbortOptions) : async St unit :=
  let stream := abortable stream options in
  source <- through stream (lp_encode msg) ;;
  drain_ source.

(** Write a message and read its response. *)
Definition _writeReadMessage {St : Type}
  (stream : Stream) (msg : Uint8Array) (options : AbortOptions) : async St Message :=
  let stream := abortable stream options in
  res <- (source <- through stream (lp_encode msg) ;;
          buf <- first (lp_decode source) ;;
          match buf with
          | Some b => ret b
          | None => throw ERR_NO_MESSAGE_RECEIVED
          end) ;;
  message <- lift (deserialize res) ;;
  (* tell any listeners about new peers we've seen *)
  forEach (closerPeers message)
    (fun peerData => call (dispatchEvent_ "peer" peerData)) ;;
  forEach (providerPeers message)
    (fun peerData => call (dispatchEvent_ "peer" peerData)) ;;
  ret message.

(** The [finally] block of both generators. *)
Definition close_stream : async (option Stream) unit :=
  stream <- get ;;
  match stream with
  | Some s => call (close_ (stream_id s))
  | None => ret tt
  end.

(** Send a request and read the answer.  The store is the local
    variable [stream]. *)
Definition sendRequest (this : Network)
  (to : PeerId) (msg : Message) (options : AbortOptions)
  : async (option Stream) unit :=
  if negb (running this) then return_
  else
    yield (dialingPeerEvent to) ;;
    yield (sendingQueryEvent to (type msg)) ;;
    put None ;;
    try_catch_finally
      (connectionManager <- lift (getConnectionManager (components this)) ;;
       connection <- await (openConnection_ to)
                           (openConnection connectionManager to options) ;;
       stream <- await (newStream_ (protocol this)
                          (opened_id (newStream connection (protocol this))))
                       (newStream connection (protocol this)) ;;
       put (Some stream) ;;
       response <- _writeReadMessage stream (serialize msg) options ;;
       yield (peerResponseEvent to (type response) (closerPeers response)
                (providerPeers response) (record response)))
      (fun err => yield (queryErrorEvent to err))
      close_stream.

(** Sends a message without expecting an answer. *)
Definition sendMessage (this : Network)
  (to : PeerId) (msg : Message) (options : AbortOptions)
  : async (option Stream) unit :=
  if negb (running this) then return_
  else
    yield (dialingPeerEvent to) ;;
    yield (sendingQueryEvent to (type msg)) ;;
    put None ;;
    try_catch_finally
      (connectionManager <- lift (getConnectionManager (components this)) ;;
       connection <- await (openConnection_ to)
                           (openConnection connectionManager to options) ;;
       stream <- await (newStream_ (protocol this)
                          (opened_id (newStream connection (protocol this))))
                       (newStream connection (protocol this)) ;;
       put (Some stream) ;;
       _writeMessage stream (serialize msg) options ;;
       yield (peerResponseEvent to (type msg) [] [] None))
      (fun err => yield (queryErrorEvent to err))
      close_stream.

(** ** Vocabulary of the properties *)

(** A call to [sendRequest] or [sendMessage] opens [stream]. *)
Definition opens (this : Network) (to : PeerId) (options : AbortOptions)
  (stream : Stream) : Prop :=
  exists connectionManager connection,
    getConnectionManager (components this) = Resolved connectionManager /\
    openConnection connectionManager to options = Resolved connection /\
    newStream connection (protocol this) = Resolved stream.

(** The connection or the stream cannot be opened, with error [e]. *)
Inductive dial_failure (this : Network) (to : PeerId) (options : AbortOptions)
  : Error -> Prop :=
| no_connection_manager (e : Error) :
    getConnectionManager (components this) = Rejected e ->
    dial_failure this to options e
| connection_refused (connectionManager : ConnectionManager) (e : Error) :
    getConnectionManager (components this) = Resolved connectionManager ->
    openConnection connectionManager to options = Rejected e ->
    dial_failure this to options e
| stream_refused (connectionManager : ConnectionManager)
    (connection : Connection) (e : Error) :
    getConnectionManager (components this) = Resolved connectionManager ->
    openConnection connectionManager to options = Resolved connection ->
    newStream connection (protocol this) = Rejected e ->
    dial_failure this to options e.

(** The error with which a source ends, when it does not end well. *)
Fixpoint source_error (src : Source) : option Error :=
  match src with
  | Ended => None
  | Chunk _ rest => source_error rest
  | Failed e => Some e
  end.

(** How many times [drain] pulls from a source. *)
Fixpoint pulls (src : Source) : nat :=
  match src with
  | Chunk _ rest => S (pulls rest)
  | Ended | Failed _ => 1
  end.



End Methods.

(** The details of the 'peer' events dispatched during a run, in order. *)
Definition peer_events (l : list (item QueryEvent Io)) : list PeerInfo :=
  flat_map (fun i => match i with
                     | Called (dispatchEvent_ name detail) =>
                         if String.eqb name "peer" then [detail] else []
                     | _ => []
                     end) l.

(** Every event dispatched during a run, with its name, in order. *)
Definition dispatched (l : list (item QueryEvent Io)) : list (string * PeerInfo) :=
  flat_map (fun i => match i with
                     | Called (dispatchEvent_ name detail) => [(name, detail)]
                     | _ => []
                     end) l.

(** How many times a run pulled from a stream's readable side. *)
Definition reads (l : list (item QueryEvent Io)) : nat :=
  List.length (filter (fun i => match i with
                                | Called (next_ _) => true
                                | _ => false
                                end) l).

Definition is_close (sid : nat) (i : item QueryEvent Io) : bool :=
  match i with
  | Called (close_ n) => Nat.eqb n sid
  | _ => false
  end.

(** Every stream a run opened is closed later in the run. *)
Fixpoint closes_streams (l : list (item QueryEvent Io)) : bool :=
  match l with
  | [] => true
  | Called (newStream_ _ (Some sid)) :: rest =>
      existsb (is_close sid) rest && closes_streams rest
  | _ :: rest => closes_streams rest
  end.

(** How many 'peer' events a run dispatched for the peer [i]. *)
Definition events_for (i : PeerId) (l : list (item QueryEvent Io)) : nat :=
  List.length (filter (fun detail => String.eqb (id detail) i) (peer_events l)).

(** A run of [_writeReadMessage] that received a message dispatched one
    'peer' event for each distinct peer the message mentions. *)
Definition one_event_per_distinct_peer {St : Type}
  (run : list (item QueryEvent Io) * (St * completion Message)) : Prop :=
  forall message : Message,
    snd (snd run) = Normal message ->
    forall i : PeerId,
      In i (map id (closerPeers message ++ providerPeers message)) ->
      events_for i (fst run) = 1%nat.

End Network.

(* ================================================================== *)
(** * The DHT root class [KadDHT] *)
(* ================================================================== *)

Module KadDHTInit.
(** [validators] and [selectors] are left out. *)
Record KadDHTInit : Type := mkKadDHTInit {
  kBucketSize : option Z;
  clientMode : option bool;
  querySelfInterval : option Z;
  lan : option bool;
  protocolPrefix : option string
}.
End KadDHTInit.

Module KadDHT.
Import JS Libp2p.
Local Open Scope js_scope.

(** [a ?? b] *)
Definition nullish {A : Type} (a : option A) (b : A) : A :=
  match a with
  | Some x => x
  | None => b
  end.
Infix "??" := nullish (at level 45, left associativity).

(** [Math.ceil], on the quotient of an integer bucket size. *)
Definition Math_ceil (q : Q) : Z := Qceiling q.

(** What the constructor hands to the components it creates. *)
Record RoutingTableInit : Type := mkRoutingTableInit {
  rt_kBucketSize : option Z;
  rt_lan : bool
}.

Record QueryManagerInit : Type := mkQueryManagerInit {
  disjointPaths : Z;
  qm_lan : option bool
}.

(** The fields of a [KadDHT] the methods below read or write.  The
    other components the constructor creates, and the listeners it
    registers on them, are left out. *)
Record KadDHT : Type := mkKadDHT {
  protocol : string;
  running : bool;
  kBucketSize : Z;
  clientMode : bool;
  lan : bool;
  routingTable : RoutingTableInit;
  network : Network.Network;
  queryManager : QueryManagerInit;
  components : Components
}.

(** [lan === true] *)
Definition is_true (b : option bool) : bool :=
  match b with
  | Some true => true
  | _ => false
  end.

Definition constructor (init : KadDHTInit.KadDHTInit) : KadDHT :=
  let kBucketSize := KadDHTInit.kBucketSize init in
  let clientMode := KadDHTInit.clientMode init in
  let lan := KadDHTInit.lan init in
  let protocolPrefix := KadDHTInit.protocolPrefix init in
  let this_lan := is_true lan (* Boolean(lan) *) in
  let this_protocol :=
    ((protocolPrefix ?? "/ipfs") ++ (if is_true lan then "/lan" else "")
       ++ "/kad/1.0.0")%string in
  let this_kBucketSize := kBucketSize ?? 20%Z in
  {| running := false;
     lan := this_lan;
     protocol := this_protocol;
     kBucketSize := this_kBucketSize;
     clientMode := clientMode ?? true;
     routingTable := {| rt_kBucketSize := kBucketSize; rt_lan := this_lan |};
     network :=
       Network.constructor
         {| NetworkInit.protocol := this_protocol; NetworkInit.lan := this_lan |};
     queryManager :=
       {| (* Number of disjoint query paths to use - This is set to
             `kBucketSize/2` per the S/Kademlia paper *)
          disjointPaths := Math_ceil (inject_Z this_kBucketSize / 2);
          qm_lan := lan |};
     components := newComponents |}.

Definition init (this : KadDHT) (c : Components) : KadDHT :=
  {| protocol := protocol this; running := running this;
     kBucketSize := kBucketSize this; clientMode := clientMode this;
     lan := lan this; routingTable := routingTable this;
     network := Network.init (network this) c;
     queryManager := queryManager this;
     components := c |}.

Definition set_clientMode (this : KadDHT) (b : bool) : KadDHT :=
  {| protocol := protocol this; running := running this;
     kBucketSize := kBucketSize this; clientMode := b;
     lan := lan this; routingTable := routingTable this;
     network := network this; queryManager := queryManager this;
     components := components this |}.

(** The calls the methods below make to the registrar and to the
    routing table. *)
Inductive Io : Type :=
| unhandle_ (protocol : string)
| handle_ (protocol : string) (handler : StreamHandler)
| routingTable_add_ (id : PeerId).

Definition async (A : Type) : Type := js KadDHT unit Io A.

Inductive Mode : Type := client | server.

(** [this.rpc.onIncomingStream.bind(this.rpc)] *)
Definition rpc_onIncomingStream : StreamHandler := "rpc.onIncomingStream".

Section Methods.

(** Which addresses count as private, and which as public. *)
Variable isPrivateAddress : Multiaddr -> bool.
Variable isPublicAddress : Multiaddr -> bool.

(** Modelled from the spec: [removePrivateAddresses] of [utils.js] is
    absent; it filters the peer's addresses, dropping the private ones. *)
Definition removePrivateAddresses (peer : PeerInfo) : PeerInfo :=
  {| id := id peer;
     multiaddrs := filter (fun a => negb (isPrivateAddress a)) (multiaddrs peer);
     protocols := protocols peer |}.

(** Modelled from the spec: [removePublicAddresses] of [utils.js] is
    absent; it filters the peer's addresses, dropping the public ones. *)
Definition removePublicAddresses (peer : PeerInfo) : PeerInfo :=
  {| id := id peer;
     multiaddrs := filter (fun a => negb (isPublicAddress a)) (multiaddrs peer);
     protocols := protocols peer |}.

(** How [this.routingTable.add(id)] settles ([routing-table/index.js]
    is absent). *)
Variable routingTable_add : PeerId -> settled unit.

Definition onPeerConnect (peerData : PeerInfo) : async unit :=
  this <- get ;;
  let peerData :=
    if lan this then removePublicAddresses peerData
    else removePrivateAddresses peerData in
  if (List.length (multiaddrs peerData) =? 0)%nat then
    return_
  else
    try_catch
      (await (routingTable_add_ (id peerData)) (routingTable_add (id peerData)))
      (fun err => ret tt).

(** Is this DHT running. *)
Definition isStarted (this : KadDHT) : bool := running this.

(** If 'server' this node will respond to DHT queries, if 'client' this
    node will not. *)
Definition getMode : async Mode :=
  this <- get ;;
  ret (if clientMode this then client else server).

Definition setMode (mode : Mode) : async unit :=
  this <- get ;;
  registrar <- lift (getRegistrar (components this)) ;;
  await (unhandle_ (protocol this)) (unhandle registrar (protocol this)) ;;
  match mode with
  | client =>
      this <- get ;;
      put (set_clientMode this true)
  | server =>
      this <- get ;;
      put (set_clientMode this false) ;;
      registrar <- lift (getRegistrar (components this)) ;;
      await (handle_ (protocol this) rpc_onIncomingStream)
            (handle registrar (protocol this) rpc_onIncomingStream)
  end.

End Methods.

End KadDHT.

(* ================================================================== *)
(** * Ping arbitration of the routing table *)
(* ================================================================== *)

Module RoutingTable.
Import JS Libp2p.
Local Open Scope js_scope.

(** Modelled from the spec: [routing-table/index.js] is absent (only
    its tests are present).  Contacts, buckets and the eviction policy
    follow the data model and the "ping arbitration" steps of the
    specification; [kb], [pingQueue] and [_onPing] are the names the
    tests use.  Splitting of buckets and the coalescing of concurrent
    arbitrations are not part of this model. *)
Record Contact : Type := mkContact {
  id : Uint8Array;         (* routing key *)
  peer : PeerId;
  lastResponded : nat      (* liveness marker *)
}.

(** Modelled from the spec: a bucket of [routing-table/index.js]
    (absent), an ordered list of contacts, oldest first. *)
Definition Bucket : Type := list Contact.

(** Modelled from the spec: a job of the ping queue of
    [routing-table/index.js] (absent): the old peers of the full bucket
    and the peer to insert. *)
Record PingJob : Type := mkPingJob {
  oldContacts : list Contact;
  newContact : Contact
}.

(** Modelled from the spec: the fields of the [RoutingTable] of
    [routing-table/index.js] (absent) that the arbitration uses. *)
Record RoutingTable : Type := mkRoutingTable {
  kBucketSize : nat;
  protocol : string;
  pingTimeout : AbortSignal;
  components : Components;
  kb : list Bucket;
  pingQueue : list PingJob
}.

Definition set_kb (this : RoutingTable) (buckets : list Bucket) : RoutingTable :=
  {| kBucketSize := kBucketSize this; protocol := protocol this;
     pingTimeout := pingTimeout this; components := components this;
     kb := buckets; pingQueue := pingQueue this |}.

Definition set_pingQueue (this : RoutingTable) (q : list PingJob) : RoutingTable :=
  {| kBucketSize := kBucketSize this; protocol := protocol this;
     pingTimeout := pingTimeout this; components := components this;
     kb := kb this; pingQueue := q |}.

Definition bytes_eq_dec : forall a b : Uint8Array, {a = b} + {a <> b} :=
  list_eq_dec byte_eq_dec.

Definition same_id (a b : Uint8Array) : bool :=
  if bytes_eq_dec a b then true else false.

(** Modelled from the spec: [kb.get(id)] of the absent
    [routing-table/index.js], the contact with that routing key, if any. *)
Definition kb_get (this : RoutingTable) (i : Uint8Array) : option Contact :=
  find (fun c => same_id i (id c)) (List.concat (kb this)).

Definition holds (i : Uint8Array) (b : Bucket) : bool :=
  existsb (fun c => same_id i (id c)) b.

Definition evict (i : Uint8Array) (b : Bucket) : Bucket :=
  filter (fun c => negb (same_id i (id c))) b.

(** Modelled from the spec: step 3 of the arbitration of the absent
    [routing-table/index.js].  The old peer responded: it is marked fresh
    and moved to newest. *)
Definition refresh (now : nat) (old : Contact) (b : Bucket) : Bucket :=
  if holds (id old) b then
    evict (id old) b ++ [{| id := id old; peer := peer old; lastResponded := now |}]
  else b.

(** Modelled from the spec: step 4 of the arbitration of the absent
    [routing-table/index.js].  The old peer did not respond: it is
    evicted and the new peer takes its place. *)
Definition replace (old new : Contact) (b : Bucket) : Bucket :=
  if holds (id old) b then evict (id old) b ++ [new] else b.

Definition async (A : Type) : Type := js RoutingTable unit Network.Io A.

(** Modelled from the spec: the liveness probe of the absent
    [routing-table/index.js]: open the DHT protocol stream, write
    nothing, close it. *)
Definition ping (this : RoutingTable) (c : Contact) : async bool :=
  try_catch
    (connectionManager <- lift (getConnectionManager (components this)) ;;
     connection <- await (Network.openConnection_ (peer c))
                         (openConnection connectionManager (peer c)
                            {| signal := Some (pingTimeout this) |}) ;;
     stream <- await (Network.newStream_ (protocol this)
                        (Network.opened_id (newStream connection (protocol this))))
                     (newStream connection (protocol this)) ;;
     call (Network.close_ (stream_id stream)) ;;
     ret true)
    (fun err => ret false).

(** Modelled from the spec: the arbitration job of the absent
    [routing-table/index.js]: ping the oldest candidate and settle. *)
Definition arbitrate (now : nat) (job : PingJob) : async unit :=
  match oldContacts job with
  | [] => ret tt
  | oldest :: _ =>
      this <- get ;;
      responded <- ping this oldest ;;
      this <- get ;;
      if responded : bool then
        put (set_kb this (map (refresh now oldest) (kb this)))
      else
        put (set_kb this (map (replace oldest (newContact job)) (kb this)))
  end.

(** Modelled from the spec: [_onPing] of the absent
    [routing-table/index.js] enqueues an arbitration job on the ping queue
    (first in, first out). *)
Definition _onPing (this : RoutingTable)
  (oldContacts : list Contact) (newContact : Contact) : RoutingTable :=
  set_pingQueue this
    (pingQueue this ++ [{| oldContacts := oldContacts; newContact := newContact |}]).

(** Modelled from the spec: the worker of the ping queue of the absent
    [routing-table/index.js] takes the next job and runs it. *)
Definition runNext (now : nat) : async unit :=
  this <- get ;;
  match pingQueue this with
  | [] => ret tt
  | job :: rest =>
      put (set_pingQueue this rest) ;;
      arbitrate now job
  end.

(** Whether opening the DHT protocol stream to a contact succeeds. *)
Definition responds (this : RoutingTable) (c : Contact) : bool :=
  match getConnectionManager (components this) with
  | Resolved connectionManager =>
      match openConnection connectionManager (peer c)
              {| signal := Some (pingTimeout this) |} with
      | Resolved connection =>
          match newStream connection (protocol this) with
          | Resolved _ => true
          | Rejected _ => false
          end
      | Rejected _ => false
      end
  | Rejected _ => false
  end.

End RoutingTable.

(* ================================================================== *)
(** * Concrete peers, streams and hosts *)
(* ================================================================== *)

Module Examples.
Import JS Libp2p Message QueryEvents.

Definition PROTOCOL : string := "/ipfs/kad/1.0.0".

Definition remote : PeerId := "QmYobx1VAHP7Mi88LcDvLeQoWcc1Aa2rynYHpdEPBqHZi5".

Definition peerA : PeerInfo :=
  {| id := "QmYobx1VAHP7Mi88LcDvLeQoWcc1Aa2rynYHpdEPBqHZi6";
     multiaddrs := ["/ip4/8.8.8.8/tcp/4001"; "/ip4/192.168.1.7/tcp/4001"];
     protocols := [] |}.

Definition peerB : PeerInfo :=
  {| id := "QmPrivateOnly";
     multiaddrs := ["/ip4/192.168.1.9/tcp/4001"];
     protocols := [] |}.

(** A FIND_NODE request, and an answer that names [peerA] both as a
    closer peer and as a provider. *)
Definition request : Message :=
  {| type := FIND_NODE; key := [x01; x02]; record := None;
     closerPeers := []; providerPeers := [] |}.

Definition response : Message :=
  {| type := FIND_NODE; key := [x01; x02]; record := None;
     closerPeers := [peerA]; providerPeers := [peerA] |}.

(** A toy codec: a request is encoded as its key, a frame of one byte
    decodes to [response], anything else is malformed. *)
Definition serialize (m : Message) : Uint8Array := key m.

Definition deserialize (buf : Uint8Array) : settled Message :=
  match buf with
  | [_] => Resolved response
  | _ => Rejected (newError "malformed message")
  end.

(** Length-prefixed framing of messages shorter than 128 bytes, whose
    varint length is a single byte; on the way back each chunk holds
    one whole frame. *)
Definition lp_encode (msg : Uint8Array) : Uint8Array :=
  match Byte.of_nat (List.length msg) with
  | Some len => len :: msg
  | None => msg
  end.

Fixpoint lp_decode (src : Source) : Source :=
  match src with
  | Ended => Ended
  | Chunk [] rest => lp_decode rest
  | Chunk (_ :: frame) rest => Chunk frame (lp_decode rest)
  | Failed e => Failed e
  end.

(** A stream whose remote answers with the given frames. *)
Definition answering (frames : list Uint8Array) : Stream :=
  {| stream_id := 7;
     sink := fun _ => Resolved tt;
     source := fun _ => fold_right (fun f rest => Chunk (lp_encode f) rest) Ended frames;
     ready := 0 |}.

(** A stream whose write is rejected when the answer of the remote, one
    frame, is already there; and a stream that breaks before any frame. *)
Definition writeError : Error := newError "write failed".

Definition deaf : Stream :=
  {| stream_id := 7;
     sink := fun _ => Rejected writeError;
     source := fun _ => Chunk (lp_encode [x2a]) Ended;
     ready := 1 |}.

Definition resetError : Error := newError "connection reset".

Definition broken : Stream :=
  {| stream_id := 7;
     sink := fun _ => Resolved tt;
     source := fun _ => Failed resetError;
     ready := 0 |}.

Definition dialError : Error := newError "Could not dial peer".

(** A host on which every dial resolves with the given stream. *)
Definition reachable (stream : Stream) : Components :=
  {| getConnectionManager :=
       Resolved {| openConnection := fun _ _ =>
         Resolved {| newStream := fun _ => Resolved stream |} |};
     getRegistrar :=
       Resolved {| unhandle := fun _ => Resolved tt;
                   handle := fun _ _ => Resolved tt |} |}.

(** A host on which every dial is rejected. *)
Definition unreachable : Components :=
  {| getConnectionManager :=
       Resolved {| openConnection := fun _ _ => Rejected dialError |};
     getRegistrar :=
       Resolved {| unhandle := fun _ => Resolved tt;
                   handle := fun _ _ => Resolved tt |} |}.

Definition network (c : Components) : Network.Network :=
  Network.start
    (Network.init
       (Network.constructor
          {| NetworkInit.protocol := PROTOCOL; NetworkInit.lan := false |})
       c).

(** A started network whose peer answers with one frame, and the same
    network after [stop()]. *)
Definition online : Network.Network := network (reachable (answering [[x2a]])).
Definition offline : Network.Network := Network.stop online.

Definition noOptions : AbortOptions := {| signal := None |}.

(** A DHT with the default options. *)
Definition defaults : KadDHTInit.KadDHTInit :=
  {| KadDHTInit.kBucketSize := None;
     KadDHTInit.clientMode := None;
     KadDHTInit.querySelfInterval := None;
     KadDHTInit.lan := None;
     KadDHTInit.protocolPrefix := None |}.

Definition dht : KadDHT.KadDHT :=
  KadDHT.init (KadDHT.constructor defaults) (reachable (answering [])).

(** Addresses of the private IPv4 ranges used above. *)
Definition isPrivateAddress (a : Multiaddr) : bool :=
  String.prefix "/ip4/192.168." a || String.prefix "/ip4/10." a.

Definition isPublicAddress (a : Multiaddr) : bool := negb (isPrivateAddress a).

(** [routingTable.add] resolves for every peer. *)
Definition routingTable_add (p : PeerId) : settled unit := Resolved tt.

(** The two contacts of the routing table's tests. *)
Definition oldPeer : RoutingTable.Contact :=
  {| RoutingTable.id :=
       list_byte_of_string "QmYobx1VAHP7Mi88LcDvLeQoWcc1Aa2rynYHpdEPBqHZi5";
     RoutingTable.peer := "QmYobx1VAHP7Mi88LcDvLeQoWcc1Aa2rynYHpdEPBqHZi5";
     RoutingTable.lastResponded := 0 |}.

Definition newPeer : RoutingTable.Contact :=
  {| RoutingTable.id :=
       list_byte_of_string "QmYobx1VAHP7Mi88LcDvLeQoWcc1Aa2rynYHpdEPBqHZi6";
     RoutingTable.peer := "QmYobx1VAHP7Mi88LcDvLeQoWcc1Aa2rynYHpdEPBqHZi6";
     RoutingTable.lastResponded := 0 |}.

(** A table whose only bucket has room for one contact and holds
    [oldPeer]. *)
Definition table (c : Components) : RoutingTable.RoutingTable :=
  {| RoutingTable.kBucketSize := 1;
     RoutingTable.protocol := PROTOCOL;
     RoutingTable.pingTimeout := {| aborts_after := None |};
     RoutingTable.components := c;
     RoutingTable.kb := [[oldPeer]];
     RoutingTable.pingQueue := [] |}.

End Examples.

(* ================================================================== *)
(** * Calls between functions *)
(* ================================================================== *)

Module JSCalls.
Import JS.

Section Calls.

Context {St Ev Io Io' : Type}.

(** The same routine, its calls recorded in the vocabulary of a wider
    observer. *)
Fixpoint relabel {A : Type} (f : Io -> Io') (p : routine St Ev Io A)
  : routine St Ev Io' A :=
  match p with
  | Halt s c => Halt s c
  | Perform io k => Perform (f io) (relabel f k)
  | Suspend ev k => Suspend ev (fun r => relabel f (k r))
  end.

Definition within {A : Type} (f : Io -> Io') (m : js St Ev Io A)
  : js St Ev Io' A :=
  fun s => relabel f (m s).

(** [await f(...)] for a function without a result: a [return] in the
    body of [f] ends [f], not its caller. *)
Fixpoint returned (p : routine St Ev Io unit) : routine St Ev Io unit :=
  match p with
  | Halt s Returned => Halt s (Normal tt)
  | Halt s c => Halt s c
  | Perform io k => Perform io (returned k)
  | Suspend ev k => Suspend ev (fun r => returned (k r))
  end.

Definition invoke (m : js St Ev Io unit) : js St Ev Io unit :=
  fun s => returned (m s).

End Calls.

(** [await Promise.all(promises)] for promises without a result, each
    already settled: the first rejection in array order, if there is
    one. *)
Fixpoint Promise_all (promises : list (settled unit)) : settled unit :=
  match promises with
  | [] => Resolved tt
  | Resolved _ :: rest => Promise_all rest
  | Rejected e :: _ => Rejected e
  end.

End JSCalls.

(* ================================================================== *)
(** * Runs of the network layer: what to count and what to check *)
(* ================================================================== *)

Module NetworkRuns.
Import JS Libp2p Message QueryEvents Network.

(** How many calls of a kind a run made. *)
Fixpoint count (kind : Io -> bool) (l : list (item QueryEvent Io)) : nat :=
  match l with
  | [] => 0
  | Called io :: rest => (if kind io then 1 else 0) + count kind rest
  | Yielded _ :: rest => count kind rest
  end.

Definition is_dial (io : Io) : bool :=
  match io with openConnection_ _ => true | _ => false end.

Definition is_stream (io : Io) : bool :=
  match io with newStream_ _ (Some _) => true | _ => false end.

Definition is_write (io : Io) : bool :=
  match io with sink_ _ _ => true | _ => false end.

Definition is_read (io : Io) : bool :=
  match io with next_ _ => true | _ => false end.

Definition is_closing (io : Io) : bool :=
  match io with close_ _ => true | _ => false end.

(** No item of the run follows a [close()]. *)
Fixpoint close_comes_last (l : list (item QueryEvent Io)) : bool :=
  match l with
  | [] => true
  | Called (close_ _) :: rest =>
      match rest with
      | [] => true
      | _ :: _ => false
      end
  | _ :: rest => close_comes_last rest
  end.

(** A call goes to the peer, the protocol and with the bytes of the
    request at hand. *)
Definition addressed (to : PeerId) (protocol : string) (data : Uint8Array)
  (i : item QueryEvent Io) : Prop :=
  match i with
  | Called (openConnection_ to') => to' = to
  | Called (newStream_ protocol' _) => protocol' = protocol
  | Called (sink_ _ data') => data' = data
  | _ => True
  end.

Section Delivery.

Variable serialize : Message -> Uint8Array.
Variable lp_encode : Uint8Array -> Uint8Array.


End Delivery.

(** The life of a [Network] object: calls of [init], [start] and [stop]. *)
Inductive op : Type :=
| Init (c : Components)
| Start
| Stop.

Definition step (this : Network) (o : op) : Network :=
  match o with
  | Init c => init this c
  | Start => start this
  | Stop => stop this
  end.

Definition after (ops : list op) (this : Network) : Network :=
  fold_left step ops this.

(** What the last [start]/[stop], and the last [init], of a life say. *)
Fixpoint last_running (ops : list op) (before : bool) : bool :=
  match ops with
  | [] => before
  | Start :: rest => last_running rest true
  | Stop :: rest => last_running rest false
  | Init _ :: rest => last_running rest before
  end.

Fixpoint last_components (ops : list op) (before : Components) : Components :=
  match ops with
  | [] => before
  | Init c :: rest => last_components rest c
  | _ :: rest => last_components rest before
  end.

End NetworkRuns.

(* ================================================================== *)
(** * [KadDHT]: start, stop and the listeners of the constructor *)
(* ================================================================== *)

Module KadDHTLife.
Import JS Libp2p KadDHT JSCalls.
Local Open Scope js_scope.

(** The components of a [KadDHT] whose source is absent; [Network] is
    the one of [src/network.ts]. *)
Inductive Component : Type :=
| providers_
| queryManager_
| routingTable_
| routingTableRefresh_
| topologyListener_
| querySelf_.

(** The calls of the methods below: those of [setMode] and
    [onPeerConnect], the [start()] and [stop()] of the components, the
    address book, and the 'peer' events the DHT dispatches itself. *)
Inductive Io : Type :=
| core (io : KadDHT.Io)
| start_ (c : Component)
| stop_ (c : Component)
| network_start_
| network_stop_
| addressBook_get_ (peer : PeerId)
| dispatchEvent_ (name : string) (detail : PeerInfo).

Definition async (A : Type) : Type := js KadDHT unit Io A.

Definition set_running (this : KadDHT) (b : bool) : KadDHT :=
  {| protocol := protocol this; running := b;
     kBucketSize := kBucketSize this; clientMode := clientMode this;
     lan := lan this; routingTable := routingTable this;
     network := network this; queryManager := queryManager this;
     components := components this |}.

Definition set_network (this : KadDHT) (n : Network.Network) : KadDHT :=
  {| protocol := protocol this; running := running this;
     kBucketSize := kBucketSize this; clientMode := clientMode this;
     lan := lan this; routingTable := routingTable this;
     network := n; queryManager := queryManager this;
     components := components this |}.

(** An entry of the address book. *)
Record Address : Type := mkAddress {
  multiaddr : Multiaddr;
  isCertified : bool
}.

Section Methods.

Variable isPrivateAddress : Multiaddr -> bool.
Variable isPublicAddress : Multiaddr -> bool.
Variable routingTable_add : PeerId -> settled unit.

(** How the [start()] and [stop()] of each absent component settle
    (each is taken to return a promise), and how
    [getPeerStore().addressBook.get(peerId)] does. *)
Variable component_start : Component -> settled unit.
Variable component_stop : Component -> settled unit.
Variable addressBook_get : PeerId -> settled (list Address).

(** Start listening to incoming connections.  The six [start()] of
    [Promise.all([...])] are called in array order before any of them is
    awaited; [network.start()] sets [running] when it is called. *)
Definition start : async unit :=
  this <- get ;;
  put (set_running this true) ;;
  (* Only respond to queries when not in client mode *)
  this <- get ;;
  within core (setMode (if clientMode this then client else server)) ;;
  call (start_ providers_) ;;
  call (start_ queryManager_) ;;
  call network_start_ ;;
  this <- get ;;
  put (set_network this (Network.start (network this))) ;;
  call (start_ routingTable_) ;;
  call (start_ topologyListener_) ;;
  call (start_ querySelf_) ;;
  lift (Promise_all [component_start providers_;
                     component_start queryManager_;
                     Resolved tt;
                     component_start routingTable_;
                     component_start topologyListener_;
                     component_start querySelf_]) ;;
  await (start_ routingTableRefresh_) (component_start routingTableRefresh_).

(** Stop accepting incoming connections and sending outgoing messages. *)
Definition stop : async unit :=
  this <- get ;;
  put (set_running this false) ;;
  call (stop_ providers_) ;;
  call (stop_ queryManager_) ;;
  call network_stop_ ;;
  this <- get ;;
  put (set_network this (Network.stop (network this))) ;;
  call (stop_ routingTable_) ;;
  call (stop_ routingTableRefresh_) ;;
  call (stop_ topologyListener_) ;;
  call (stop_ querySelf_) ;;
  lift (Promise_all [component_stop providers_;
                     component_stop queryManager_;
                     Resolved tt;
                     component_stop routingTable_;
                     component_stop routingTableRefresh_;
                     component_stop topologyListener_;
                     component_stop querySelf_]).

(** The listener of the network's 'peer' event: handle peers being
    discovered during processing of DHT messages.  [onPeerConnect] is not
    awaited: it runs up to its call of [routingTable.add] and its
    rejection goes to [.catch]. *)
Definition onNetworkPeer (peerData : PeerInfo) : async unit :=
  try_catch
    (invoke (within core
       (onPeerConnect isPrivateAddress isPublicAddress routingTable_add peerData)))
    (fun err => ret tt) ;;
  call (dispatchEvent_ "peer" peerData).

(** The listener of the topology listener's 'peer' event: handle peers
    being discovered via other peer discovery mechanisms. *)
Definition onTopologyPeer (peerId : PeerId) : async unit :=
  try_catch
    (multiaddrs <- await (addressBook_get_ peerId) (addressBook_get peerId) ;;
     let peerData :=
       {| id := peerId;
          multiaddrs := map multiaddr multiaddrs;
          protocols := [] |} in
     invoke (within core
       (onPeerConnect isPrivateAddress isPublicAddress routingTable_add peerData)))
    (fun err => ret tt).

(** ** Vocabulary of the properties *)

(** The registrar lets [setMode(mode)] through. *)
Definition registrar_accepts (this : KadDHT) (mode : Mode) : Prop :=
  exists registrar : Registrar,
    getRegistrar (components this) = Resolved registrar /\
    unhandle registrar (protocol this) = Resolved tt /\
    (mode = server ->
     handle registrar (protocol this) rpc_onIncomingStream = Resolved tt).

(** An address the filter of the DHT's mode keeps. *)
Definition keeps (this : KadDHT) (a : Multiaddr) : bool :=
  if lan this then negb (isPublicAddress a) else negb (isPrivateAddress a).

End Methods.

(** The mode a DHT is in. *)
Definition mode_of (this : KadDHT) : Mode :=
  if clientMode this then client else server.

Definition is_start (io : Io) : bool :=
  match io with
  | start_ _ | network_start_ => true
  | _ => false
  end.

Definition is_core (io : Io) : bool :=
  match io with core _ => true | _ => false end.

End KadDHTLife.

(* ================================================================== *)
(** * More concrete hosts *)
(* ================================================================== *)

Module MoreExamples.
Import JS Libp2p Examples.

(** A DHT in server mode on the host of [dht]. *)
Definition serverDht : KadDHT.KadDHT := KadDHT.set_clientMode dht false.

(** Every component starts and stops, except that the routing table
    refuses to start. *)
Definition starting (c : KadDHTLife.Component) : settled unit := Resolved tt.

Definition failing (c : KadDHTLife.Component) : settled unit :=
  match c with
  | KadDHTLife.routingTable_ => Rejected (newError "table not started")
  | _ => Resolved tt
  end.

(** [dht] after [start()]. *)
Definition startedDht : KadDHT.KadDHT :=
  fst (snd (drain (KadDHTLife.start starting dht))).

(** An address book that knows the addresses of [peerA] only. *)
Definition addressBook (p : PeerId) : settled (list KadDHTLife.Address) :=
  if String.eqb p (id peerA) then
    Resolved (map (fun a => {| KadDHTLife.multiaddr := a;
                               KadDHTLife.isCertified := false |})
                (multiaddrs peerA))
  else Rejected (newError "unknown peer").

(** A stream whose remote sends two chunks and ends. *)
Definition chatty : Stream :=
  {| stream_id := 9;
     sink := fun _ => Resolved tt;
     source := fun _ => Chunk [x01] (Chunk [x02] Ended);
     ready := 0 |}.

(** A stream whose write is rejected at once and whose remote sends
    nothing. *)
Definition refusing : Stream :=
  {| stream_id := 9;
     sink := fun _ => Rejected writeError;
     source := fun _ => Ended;
     ready := 0 |}.

End MoreExamples.

(* ================================================================== *)
(** * Properties of routines *)
(* ================================================================== *)

Module JSFacts.
Import JS.

Section Facts.
Context {St Ev Io : Type}.

Lemma performs_app {A : Type} (xs ys : list Io) (k : routine St Ev Io A) :
  performs (xs ++ ys) k = performs xs (performs ys k).
Proof. induction xs as [|x xs IH]; simpl; [reflexivity | now rewrite IH]. Qed.

Lemma bind_performs {A B : Type} (ios : list Io) (k : routine St Ev Io A)
  (f : A -> js St Ev Io B) :
  bind_routine (performs ios k) f = performs ios (bind_routine k f).
Proof. induction ios as [|io ios IH]; simpl; [reflexivity | now rewrite IH]. Qed.

Lemma catch_performs {A : Type} (ios : list Io) (k : routine St Ev Io A)
  (h : Error -> js St Ev Io A) :
  catch_routine (performs ios k) h = performs ios (catch_routine k h).
Proof. induction ios as [|io ios IH]; simpl; [reflexivity | now rewrite IH]. Qed.

Lemma finally_performs {A : Type} (ios : list Io) (k : routine St Ev Io A)
  (fin : js St Ev Io unit) :
  finally_routine (performs ios k) fin = performs ios (finally_routine k fin).
Proof. induction ios as [|io ios IH]; simpl; [reflexivity | now rewrite IH]. Qed.

Lemma drain_performs {A : Type} (ios : list Io) (k : routine St Ev Io A) :
  drain (performs ios k) = (map Called ios ++ fst (drain k), snd (drain k)).
Proof.
  induction ios as [|io ios IH]; simpl.
  - now destruct (drain k).
  - now rewrite IH.
Qed.

Lemma drive_performs {A : Type} (ios : list Io) (k : routine St Ev Io A)
  (script : list resume) :
  drive (performs ios k) script
  = (map Called ios ++ fst (drive k script), snd (drive k script)).
Proof.
  induction ios as [|io ios IH]; simpl.
  - now destruct (drive k script).
  - rewrite IH. reflexivity.
Qed.

(** A [forEach] whose callback only makes a call is a run of calls. *)
Lemma forEach_calls {X : Type} (l : list X) (g : X -> Io) (s : St) :
  forEach l (fun x => call (Ev := Ev) (g x)) s
  = performs (map g l) (Halt s (Normal tt)).
Proof.
  induction l as [|x l IH]; simpl; [reflexivity|].
  unfold bind, call at 1. simpl. now rewrite IH.
Qed.

Lemma yielded_app (l1 l2 : list (item Ev Io)) :
  yielded (l1 ++ l2) = yielded l1 ++ yielded l2.
Proof. apply flat_map_app. Qed.

Lemma yielded_calls (ios : list Io) : yielded (Ev := Ev) (map Called ios) = [].
Proof. induction ios as [|io ios IH]; simpl; [reflexivity | exact IH]. Qed.

(** The completion of a sequence whose first part completes normally. *)
Lemma drain_bind {A B : Type} (p : routine St Ev Io A)
  (f : A -> js St Ev Io B) (s : St) (a : A) :
  snd (drain p) = (s, Normal a) ->
  snd (drain (bind_routine p f)) = snd (drain (f a s)).
Proof.
  induction p as [s' c|io k IH|ev k IH]; simpl.
  - intros [= -> ->]. reflexivity.
  - exact IH.
  - apply IH.
Qed.

End Facts.
End JSFacts.

(* ================================================================== *)
(** * Properties of the network layer *)
(* ================================================================== *)

Module NetworkFacts.
Import JS Libp2p Message QueryEvents Network JSFacts.

Lemma reads_app (l1 l2 : list (item QueryEvent Io)) :
  reads (l1 ++ l2) = (reads l1 + reads l2)%nat.
Proof. unfold reads. now rewrite filter_app, length_app. Qed.

Lemma reads_dispatches (name : string) (l : list PeerInfo) :
  reads (map Called (map (dispatchEvent_ name) l)) = 0%nat.
Proof. induction l as [|p l IH]; [reflexivity | exact IH]. Qed.

Lemma peer_events_app (l1 l2 : list (item QueryEvent Io)) :
  peer_events (l1 ++ l2) = peer_events l1 ++ peer_events l2.
Proof. apply flat_map_app. Qed.

(** A write is neither a read nor an event. *)
Lemma reads_write (sid : nat) (data : Uint8Array)
  (l : list (item QueryEvent Io)) :
  reads (Called (sink_ sid data) :: l) = reads l.
Proof. reflexivity. Qed.

Lemma peer_events_write (sid : nat) (data : Uint8Array)
  (l : list (item QueryEvent Io)) :
  peer_events (Called (sink_ sid data) :: l) = peer_events l.
Proof. reflexivity. Qed.

Lemma dispatched_write (sid : nat) (data : Uint8Array)
  (l : list (item QueryEvent Io)) :
  dispatched (Called (sink_ sid data) :: l) = dispatched l.
Proof. reflexivity. Qed.

Lemma reads_pulls (sid n : nat) :
  reads (map Called (repeat (next_ sid) n)) = n.
Proof.
  induction n as [|n IH]; [reflexivity|].
  change (S (reads (map Called (repeat (next_ sid) n))) = S n). now rewrite IH.
Qed.

Lemma peer_events_dispatches (l : list PeerInfo) :
  peer_events (map Called (map (dispatchEvent_ "peer") l)) = l.
Proof.
  induction l as [|p l IH]; [reflexivity|].
  change (p :: peer_events (map Called (map (dispatchEvent_ "peer") l)) = p :: l).
  now rewrite IH.
Qed.

Lemma peer_events_reads (sid n : nat) :
  peer_events (map Called (repeat (next_ sid) n)) = [].
Proof. induction n as [|n IH]; [reflexivity | exact IH]. Qed.

Lemma dispatched_app (l1 l2 : list (item QueryEvent Io)) :
  dispatched (l1 ++ l2) = dispatched l1 ++ dispatched l2.
Proof. apply flat_map_app. Qed.

Lemma dispatched_dispatches (name : string) (l : list PeerInfo) :
  dispatched (map Called (map (dispatchEvent_ name) l)) = map (pair name) l.
Proof.
  induction l as [|p l IH]; [reflexivity|].
  change ((name, p) :: dispatched (map Called (map (dispatchEvent_ name) l))
          = (name, p) :: map (pair name) l).
  now rewrite IH.
Qed.

Lemma dispatched_reads (sid n : nat) :
  dispatched (map Called (repeat (next_ sid) n)) = [].
Proof. induction n as [|n IH]; [reflexivity | exact IH]. Qed.

Lemma existsb_is_close_dispatches (sid : nat) (name : string)
  (l : list PeerInfo) (rest : list (item QueryEvent Io)) :
  existsb (is_close sid) (map Called (map (dispatchEvent_ name) l) ++ rest)
  = existsb (is_close sid) rest.
Proof. induction l as [|p l IH]; [reflexivity | exact IH]. Qed.

Lemma closes_streams_dispatches (name : string)
  (l : list PeerInfo) (rest : list (item QueryEvent Io)) :
  closes_streams (map Called (map (dispatchEvent_ name) l) ++ rest)
  = closes_streams rest.
Proof. induction l as [|p l IH]; [reflexivity | exact IH]. Qed.

Lemma existsb_is_close_reads (sid stream n : nat)
  (rest : list (item QueryEvent Io)) :
  existsb (is_close sid) (map Called (repeat (next_ stream) n) ++ rest)
  = existsb (is_close sid) rest.
Proof. induction n as [|n IH]; [reflexivity | exact IH]. Qed.

Lemma closes_streams_reads (stream n : nat) (rest : list (item QueryEvent Io)) :
  closes_streams (map Called (repeat (next_ stream) n) ++ rest)
  = closes_streams rest.
Proof. induction n as [|n IH]; [reflexivity | exact IH]. Qed.

(** The check [closes_streams] means what it says. *)
Lemma closes_streams_sound (log : list (item QueryEvent Io)) :
  closes_streams log = true ->
  forall (l1 l2 : list (item QueryEvent Io)) (protocol : string) (sid : nat),
    log = l1 ++ Called (newStream_ protocol (Some sid)) :: l2 ->
    In (Called (close_ sid)) l2.
Proof.
  intros Hlog l1. revert log Hlog.
  induction l1 as [|i l1 IH]; intros log Hlog l2 protocol sid ->; simpl in Hlog.
  - apply andb_true_iff in Hlog as [Hclose _].
    apply existsb_exists in Hclose as (i & Hin & Hi).
    destruct i as [ev|[]]; try discriminate. simpl in Hi.
    apply Nat.eqb_eq in Hi as ->. exact Hin.
  - destruct i as [ev|[to|p [n|]|n d|n|n|n d]]; simpl in Hlog;
      try apply andb_true_iff in Hlog as [_ Hlog];
      eapply IH; eauto.
Qed.

Section Facts.

Variable serialize : Message -> Uint8Array.
Variable deserialize : Uint8Array -> settled Message.
Variable lp_encode : Uint8Array -> Uint8Array.
Variable lp_decode : Source -> Source.

Lemma pull_tree {St : Type} (stream : Stream) (src : Source) (s : St) :
  pull stream src s
  = performs (repeat (next_ (stream_id stream)) (pulls src)) (Halt s (Normal tt)).
Proof.
  induction src as [|buf rest IH|e]; simpl; try reflexivity.
  unfold bind, call at 1. simpl. now rewrite IH.
Qed.

Lemma through_tree {St : Type} (stream : Stream) (data : Uint8Array) (s : St) :
  through stream data s
  = Perform (sink_ (stream_id stream) data)
      (performs (repeat (next_ (stream_id stream)) (pulls (source stream data)))
         (Halt s (Normal (piped stream data)))).
Proof.
  unfold through, bind. unfold call at 1. simpl.
  now rewrite pull_tree, bind_performs.
Qed.

(** [_writeReadMessage] as the tree of what it does. *)
Lemma writeReadMessage_tree {St : Type} (stream : Stream) (msg : Uint8Array)
  (options : AbortOptions) (s : St) :
  _writeReadMessage deserialize lp_encode lp_decode stream msg options s
  = let stream' := abortable stream options in
    Perform (sink_ (stream_id stream') (lp_encode msg))
      (performs (repeat (next_ (stream_id stream'))
                   (pulls (source stream' (lp_encode msg))))
         (match lp_decode (piped stream' (lp_encode msg)) with
          | Ended => Halt s (Thrown ERR_NO_MESSAGE_RECEIVED)
          | Failed e => Halt s (Thrown e)
          | Chunk buf _ =>
              match deserialize buf with
              | Rejected e => Halt s (Thrown e)
              | Resolved message =>
                  performs
                    (map (dispatchEvent_ "peer")
                       (closerPeers message ++ providerPeers message))
                    (Halt s (Normal message))
              end
          end)).
Proof.
  unfold _writeReadMessage, bind, first, lift, ret, throw. cbv beta zeta.
  rewrite through_tree. simpl. rewrite !bind_performs. simpl.
  do 2 f_equal.
  destruct (lp_decode _); simpl; try reflexivity.
  destruct (deserialize buf) as [message|e]; simpl; [|reflexivity].
  rewrite map_app, performs_app, forEach_calls, bind_performs. simpl.
  rewrite forEach_calls, bind_performs. reflexivity.
Qed.

(** What the pipeline reads when the write resolves, and when it is
    rejected before anything came. *)
Lemma resolved_write_pipes_the_source (stream : Stream) (data : Uint8Array) :
  sink stream data = Resolved tt -> piped stream data = source stream data.
Proof. unfold piped. now intros ->. Qed.



Lemma drain__tree {St : Type} (src : Source) (s : St) :
  drain_ src s
  = Halt s (match source_error src with
            | None => Normal tt
            | Some e => Thrown e
            end).
Proof. induction src as [|buf rest IH|e]; simpl; auto. Qed.

(** [_writeMessage] as the tree of what it does. *)
Lemma writeMessage_tree {St : Type} (stream : Stream) (msg : Uint8Array)
  (options : AbortOptions) (s : St) :
  _writeMessage lp_encode stream msg options s
  = let stream' := abortable stream options in
    Perform (sink_ (stream_id stream') (lp_encode msg))
      (performs (repeat (next_ (stream_id stream'))
                   (pulls (source stream' (lp_encode msg))))
         (Halt s (match source_error (piped stream' (lp_encode msg)) with
                  | None => Normal tt
                  | Some e => Thrown e
                  end))).
Proof.
  unfold _writeMessage, bind. cbv beta zeta.
  rewrite through_tree. simpl. rewrite bind_performs. simpl.
  now rewrite drain__tree.
Qed.


Local Opaque _writeReadMessage _writeMessage.

(** Unfolds the control operators of a generator body. *)
Ltac unfold_js :=
  unfold try_catch_finally, try_finally, try_catch, close_stream,
    bind, yield, put, get, lift, await, call, ret, throw, return_ in *.

(** Pushes the calls of a [performs] out of the control operators. *)
Ltac push_performs :=
  rewrite ?bind_performs, ?catch_performs, ?finally_performs,
    ?drain_performs, ?drive_performs.

(** Closes a case of the analysis of a run: the completion is read off,
    and a failure named by a hypothesis is matched with the case at hand. *)
Ltac settle_failures :=
  repeat split; intros;
  try (repeat match goal with
       | H : dial_failure _ _ _ _ |- _ => destruct H
       | H : opens _ _ _ _ |- _ => destruct H as (? & ? & ? & ? & ?)
       end;
       congruence).

(** A network is not started before [start()] and after [stop()]. *)
Lemma not_started_before_start_and_after_stop
  (init : NetworkInit.NetworkInit) (this : Network) :
  isStarted (constructor init) = false /\
  isStarted (stop this) = false /\
  isStarted (start this) = true.
Proof. unfold isStarted, start. simpl. now destruct (running this) eqn:H. Qed.



(** C10.  On a network that is not started (never started, or stopped),
    [sendRequest] and [sendMessage] complete at once by their [return]:
    nothing is yielded, no collaborator is called (so the connection
    manager is never contacted), and nothing is thrown. *)
Theorem not_started_sends_nothing
  (this : Network) (to : PeerId) (msg : Message) (options : AbortOptions) :
  isStarted this = false ->
  drain (sendRequest serialize deserialize lp_encode lp_decode
           this to msg options None)
  = ([], (None, Returned)) /\
  drain (sendMessage serialize lp_encode this to msg options None)
  = ([], (None, Returned)).
Proof.
  unfold isStarted, sendRequest, sendMessage. intros ->. split; reflexivity.
Qed.

(** C2.  On a started network the events [sendRequest] yields to a
    consumer that takes them all are, in order, [dialing_peer],
    [sending_query] and exactly one more, after which the generator
    completes.  That last event is decided by what happened: when the
    connection or the stream cannot be opened it is the [query_error] of
    that error; on an opened stream, when [_writeReadMessage] returns a
    response it is the [peer_response] carrying the sender and the type,
    closer peers, provider peers and record of that response, and when
    [_writeReadMessage] throws it is the [query_error] of the error
    thrown. *)
Theorem sendRequest_event_sequence
  (this : Network) (to : PeerId) (msg : Message) (options : AbortOptions) :
  isStarted this = true ->
  let run :=
    drain (sendRequest serialize deserialize lp_encode lp_decode
             this to msg options None) in
  exists last : QueryEvent,
    yielded (fst run)
    = [dialingPeerEvent to; sendingQueryEvent to (type msg); last] /\
    snd (snd run) = Normal tt /\
    (forall e : Error,
       dial_failure this to options e -> last = queryErrorEvent to e) /\
    (forall stream : Stream,
       opens this to options stream ->
       match
         snd (snd (drain (_writeReadMessage deserialize lp_encode lp_decode
                            stream (serialize msg) options (Some stream))))
       with
       | Normal response =>
           last = peerResponseEvent to (type response) (closerPeers response)
                    (providerPeers response) (record response)
       | Thrown err => last = queryErrorEvent to err
       | Returned => False
       end).
Proof.
  unfold isStarted, sendRequest. intros ->. cbv zeta. unfold_js. simpl.
  destruct (getConnectionManager (components this)) as [cm|e0] eqn:Hcm; simpl;
    [|eexists; settle_failures].
  destruct (openConnection cm to options) as [conn|e0] eqn:Hconn; simpl;
    [|eexists; settle_failures].
  destruct (newStream conn (protocol this)) as [stream|e0] eqn:Hstream; simpl;
    [|eexists; settle_failures].
  assert (Hsame : forall s0 : Stream, opens this to options s0 -> s0 = stream).
  { intros s0 (cm' & c' & ? & ? & ?). congruence. }
  rewrite writeReadMessage_tree. simpl. push_performs.
  destruct (lp_decode _) as [|buf rest|e0] eqn:Hread; simpl;
    [| destruct (deserialize buf) as [response|e0] eqn:Hmsg; simpl |];
    push_performs; simpl; rewrite ?yielded_app, ?yielded_calls; simpl;
    (eexists; split; [reflexivity|]; split; [reflexivity|]; split;
     [settle_failures|]);
    intros s0 Hopen; rewrite (Hsame s0 Hopen), writeReadMessage_tree; simpl;
    push_performs; simpl; rewrite Hread; simpl; rewrite ?Hmsg; simpl;
    push_performs; reflexivity.
Qed.


(** C4, as amended.  [_writeReadMessage] takes the readable side of the
    stream to its end, and uses one response: the first frame decoded
    from what the pipeline reads through the stream.  When there is such
    a frame the result is its deserialization, whatever follows it; when
    what the pipeline reads ends without a frame the call fails with
    [ERR_NO_MESSAGE_RECEIVED]; when it breaks before a frame the call
    fails with the error it broke with.  What the pipeline reads is the
    readable side itself when the write resolves.  And, the collaborators
    raising no error with that code themselves, the call fails with
    [ERR_NO_MESSAGE_RECEIVED] only on the clean end without a frame. *)
Theorem writeReadMessage_reads_one_response {St : Type}
  (stream : Stream) (msg : Uint8Array) (options : AbortOptions) (s : St) :
  let stream' := abortable stream options in
  let frames := lp_decode (piped stream' (lp_encode msg)) in
  let result :=
    drain (_writeReadMessage deserialize lp_encode lp_decode stream msg options s) in
  (forall e : Error,
     frames = Failed e -> code e <> Some "ERR_NO_MESSAGE_RECEIVED") ->
  (forall (buf : Uint8Array) (e : Error),
     deserialize buf = Rejected e -> code e <> Some "ERR_NO_MESSAGE_RECEIVED") ->
  reads (fst result) = pulls (source stream' (lp_encode msg)) /\
  (forall (buf : Uint8Array) (rest : Source),
     frames = Chunk buf rest ->
     snd (snd result)
     = match deserialize buf with
       | Resolved message => Normal message
       | Rejected e => Thrown e
       end) /\
  (frames = Ended -> snd (snd result) = Thrown ERR_NO_MESSAGE_RECEIVED) /\
  (forall e : Error, frames = Failed e -> snd (snd result) = Thrown e) /\
  (sink stream' (lp_encode msg) = Resolved tt ->
   frames = lp_decode (source stream' (lp_encode msg))) /\
  ((exists e : Error,
      snd (snd result) = Thrown e /\ code e = Some "ERR_NO_MESSAGE_RECEIVED")
   <-> frames = Ended).
Proof.
  intros stream' frames result Hstream Hdeserialize.
  assert (Hreads :
    reads (fst result) = pulls (source stream' (lp_encode msg))).
  { subst result. rewrite writeReadMessage_tree. simpl. push_performs. simpl.
    fold stream'. rewrite reads_write, reads_app, reads_pulls.
    destruct (lp_decode _) as [|buf rest|e]; simpl;
      [unfold reads; simpl; lia| |unfold reads; simpl; lia].
    destruct (deserialize buf) as [message|e]; simpl;
      [|unfold reads; simpl; lia].
    push_performs. simpl. rewrite reads_app, reads_dispatches.
    unfold reads. simpl. lia. }
  split; [exact Hreads|].
  assert (Hpiped : sink stream' (lp_encode msg) = Resolved tt ->
                   frames = lp_decode (source stream' (lp_encode msg))).
  { intros Hsink. subst frames.
    now rewrite (resolved_write_pipes_the_source _ _ Hsink). }
  subst result. rewrite writeReadMessage_tree. simpl. push_performs. simpl.
  fold stream'. fold frames.
  destruct frames as [|buf rest|e] eqn:Hframes; simpl.
  - repeat split; try discriminate; eauto.
  - destruct (deserialize buf) as [message|e] eqn:Hmsg.
    + push_performs. simpl.
      repeat split; try discriminate; auto.
      * intros buf' rest' Heq. injection Heq as -> _. now rewrite Hmsg.
      * intros (e & He & _). discriminate He.
    + simpl. repeat split; try discriminate; auto.
      * intros buf' rest' Heq. injection Heq as -> _. now rewrite Hmsg.
      * intros (e' & He & Hcode). injection He as <-.
        now apply Hdeserialize in Hmsg.
  - repeat split; try discriminate; auto.
    + intros e' [= ->]. reflexivity.
    + intros (e' & He & Hcode). injection He as <-.
      now apply (Hstream e) in Hcode.
Qed.

(** C6, as amended.  When [_writeReadMessage] receives a message (the
    first frame that comes through, also when the write is rejected
    after it) it dispatches one event for each entry of [closerPeers],
    then one for each entry of [providerPeers], in list order, each
    under the name 'peer', and no other event: a peer gets as many
    'peer' events as the two lists mention it. *)
Theorem peer_event_for_each_mention {St : Type}
  (stream : Stream) (msg : Uint8Array) (options : AbortOptions) (s : St)
  (buf : Uint8Array) (rest : Source) (message : Message) :
  let stream' := abortable stream options in
  let result :=
    drain (_writeReadMessage deserialize lp_encode lp_decode stream msg options s) in
  lp_decode (piped stream' (lp_encode msg)) = Chunk buf rest ->
  deserialize buf = Resolved message ->
  snd (snd result) = Normal message /\
  dispatched (fst result)
  = map (pair "peer") (closerPeers message ++ providerPeers message) /\
  peer_events (fst result) = closerPeers message ++ providerPeers message /\
  forall i : PeerId,
    events_for i (fst result)
    = List.length (filter (fun p => String.eqb (id p) i)
                     (closerPeers message ++ providerPeers message)).
Proof.
  intros stream' result Hframes Hmsg.
  assert (Hlog :
    fst result
    = Called (sink_ (stream_id stream') (lp_encode msg))
      :: map Called (repeat (next_ (stream_id stream'))
                       (pulls (source stream' (lp_encode msg))))
      ++ map Called (map (dispatchEvent_ "peer")
                       (closerPeers message ++ providerPeers message))).
  { subst result. rewrite writeReadMessage_tree. simpl. push_performs. simpl.
    fold stream'. rewrite Hframes, Hmsg. simpl. push_performs. simpl.
    now rewrite app_nil_r. }
  assert (Hevents :
    peer_events (fst result) = closerPeers message ++ providerPeers message).
  { rewrite Hlog, peer_events_write, peer_events_app, peer_events_reads.
    apply peer_events_dispatches. }
  split; [|split; [|split; [exact Hevents|]]].
  - subst result. rewrite writeReadMessage_tree. simpl. push_performs. simpl.
    fold stream'. rewrite Hframes, Hmsg. simpl. push_performs. reflexivity.
  - rewrite Hlog, dispatched_write, dispatched_app, dispatched_reads.
    apply dispatched_dispatches.
  - intros i. unfold events_for. now rewrite Hevents.
Qed.

(** Resumes a suspended generator in every way its consumer can. *)
Ltac resume script :=
  destruct script as [|[| |?] script]; simpl; try discriminate.

(** A run that reached its end: its record closes what it opened. *)
Ltac finished :=
  let H := fresh in
  intros H; injection H as <- _; simpl;
  rewrite ?existsb_is_close_dispatches, ?closes_streams_dispatches,
    ?existsb_is_close_reads, ?closes_streams_reads;
  simpl;
  rewrite ?existsb_is_close_dispatches, ?closes_streams_dispatches,
    ?existsb_is_close_reads, ?closes_streams_reads;
  simpl; rewrite ?Nat.eqb_refl; reflexivity.

Lemma sendRequest_closes_streams
  (this : Network) (to : PeerId) (msg : Message) (options : AbortOptions)
  (script : list resume) (log : list (item QueryEvent Io))
  (final : option Stream * completion unit) :
  generator (sendRequest serialize deserialize lp_encode lp_decode
               this to msg options) None script
  = (log, Some final) ->
  closes_streams log = true.
Proof.
  unfold generator, sendRequest.
  resume script; try finished.
  destruct (running this); simpl; [|finished].
  unfold_js. simpl.
  resume script; try finished.
  resume script; try finished.
  destruct (getConnectionManager (components this)) as [cm|e0]; simpl;
    [|resume script; finished].
  destruct (openConnection cm to options) as [conn|e0]; simpl;
    [|resume script; finished].
  destruct (newStream conn (protocol this)) as [stream|e0]; simpl;
    [|resume script; finished].
  rewrite writeReadMessage_tree. simpl. push_performs.
  destruct (lp_decode _) as [|buf rest|e0]; simpl;
    [resume script; finished| |resume script; finished].
  destruct (deserialize buf) as [response|e0]; simpl;
    [|resume script; finished].
  push_performs. simpl.
  resume script; try finished.
  resume script; finished.
Qed.

Lemma sendMessage_closes_streams
  (this : Network) (to : PeerId) (msg : Message) (options : AbortOptions)
  (script : list resume) (log : list (item QueryEvent Io))
  (final : option Stream * completion unit) :
  generator (sendMessage serialize lp_encode this to msg options) None script
  = (log, Some final) ->
  closes_streams log = true.
Proof.
  unfold generator, sendMessage.
  resume script; try finished.
  destruct (running this); simpl; [|finished].
  unfold_js. simpl.
  resume script; try finished.
  resume script; try finished.
  destruct (getConnectionManager (components this)) as [cm|e0]; simpl;
    [|resume script; finished].
  destruct (openConnection cm to options) as [conn|e0]; simpl;
    [|resume script; finished].
  destruct (newStream conn (protocol this)) as [stream|e0]; simpl;
    [|resume script; finished].
  rewrite writeMessage_tree. simpl. push_performs.
  destruct (source_error _) as [e0|]; simpl.
  - resume script; finished.
  - resume script; try finished.
    resume script; finished.
Qed.

(** C5.  Whenever a generator of [sendRequest] or [sendMessage] has run
    to its end, however its consumer resumed it ([next()], an early
    [return()], or [throw(e)]) and whatever the peer did (success, I/O
    error, abort), every stream that [newStream] handed out was closed
    later in the same run. *)
Theorem streams_closed_on_every_exit
  (this : Network) (to : PeerId) (msg : Message) (options : AbortOptions)
  (script : list resume) (log : list (item QueryEvent Io))
  (final : option Stream * completion unit) :
  generator (sendRequest serialize deserialize lp_encode lp_decode
               this to msg options) None script
  = (log, Some final) \/
  generator (sendMessage serialize lp_encode this to msg options) None script
  = (log, Some final) ->
  forall (l1 l2 : list (item QueryEvent Io)) (protocol : string) (sid : nat),
    log = l1 ++ Called (newStream_ protocol (Some sid)) :: l2 ->
    In (Called (close_ sid)) l2.
Proof.
  intros Hrun. apply closes_streams_sound.
  destruct Hrun as [Hrun|Hrun].
  - exact (sendRequest_closes_streams _ _ _ _ _ _ _ Hrun).
  - exact (sendMessage_closes_streams _ _ _ _ _ _ _ Hrun).
Qed.

End Facts.

(** ** The properties at work on a concrete host *)

Import Examples.

Lemma not_started_sends_nothing_witness :
  isStarted offline = false /\
  drain (sendRequest serialize deserialize lp_encode lp_decode
           offline remote request noOptions None)
  = ([], (None, Returned)).
Proof.
  split; [reflexivity|].
  exact (proj1 (not_started_sends_nothing serialize deserialize lp_encode
                  lp_decode offline remote request noOptions eq_refl)).
Defined.

Lemma sendRequest_event_sequence_witness :
  isStarted online = true /\
  opens online remote noOptions (answering [[x2a]]) /\
  yielded (fst (drain (sendRequest serialize deserialize lp_encode lp_decode
                         online remote request noOptions None)))
  = [dialingPeerEvent remote; sendingQueryEvent remote FIND_NODE;
     peerResponseEvent remote FIND_NODE [peerA] [peerA] None].
Proof.
  assert (Hopen : opens online remote noOptions (answering [[x2a]])).
  { do 2 eexists. repeat split; reflexivity. }
  split; [reflexivity|]. split; [exact Hopen|].
  destruct (sendRequest_event_sequence serialize deserialize lp_encode lp_decode
              online remote request noOptions eq_refl)
    as (last & Hevents & _ & _ & Hstream).
  rewrite Hevents. specialize (Hstream _ Hopen). simpl in Hstream.
  now rewrite Hstream.
Defined.



Lemma writeReadMessage_reads_one_response_witness :
  reads (fst (drain (_writeReadMessage deserialize lp_encode lp_decode
                       (answering [[x2a]; [x2b]]) (serialize request)
                       noOptions tt))) = 3%nat /\
  snd (snd (drain (_writeReadMessage deserialize lp_encode lp_decode
                     (answering [[x2a]; [x2b]]) (serialize request)
                     noOptions tt))) = Normal response.
Proof.
  assert (Hframes : forall e : Error,
    lp_decode (piped (abortable (answering [[x2a]; [x2b]]) noOptions)
                 (lp_encode (serialize request))) = Failed e ->
    code e <> Some "ERR_NO_MESSAGE_RECEIVED").
  { intros e H. vm_compute in H. discriminate H. }
  assert (Hdeserialize : forall (buf : Uint8Array) (e : Error),
    deserialize buf = Rejected e -> code e <> Some "ERR_NO_MESSAGE_RECEIVED").
  { intros [|b [|b' buf]] e H; inversion H; discriminate. }
  destruct (writeReadMessage_reads_one_response deserialize lp_encode lp_decode
              (answering [[x2a]; [x2b]]) (serialize request) noOptions tt
              Hframes Hdeserialize) as (Hreads & Hfirst & _).
  split; [exact Hreads|].
  exact (Hfirst [x2a] (Chunk [x2b] Ended) eq_refl).
Defined.

(** C4, as stated, fails twice.  A stream that breaks before any frame
    yields no frame, and the call fails with the error of the stream,
    not with [ERR_NO_MESSAGE_RECEIVED].  And on a stream that answers
    with two frames the readable side is pulled three times, to its
    end, not once. *)
Lemma broken_stream_fails_with_its_own_error :
  (lp_decode (source (abortable broken noOptions)
                (lp_encode (serialize request))) = Failed resetError /\
   snd (snd (drain (_writeReadMessage deserialize lp_encode lp_decode
                      broken (serialize request) noOptions tt)))
   = Thrown resetError /\
   code resetError <> Some "ERR_NO_MESSAGE_RECEIVED") /\
  reads (fst (drain (_writeReadMessage deserialize lp_encode lp_decode
                       (answering [[x2a]; [x2b]]) (serialize request)
                       noOptions tt))) = 3%nat.
Proof.
  split; [|reflexivity].
  split; [reflexivity|]. split; [reflexivity|]. discriminate.
Qed.

Lemma streams_closed_on_every_exit_witness :
  generator (sendRequest serialize deserialize lp_encode lp_decode
               online remote request noOptions)
    None [Next; Next; Next; Return]
  = ([Yielded (dialingPeerEvent remote);
      Yielded (sendingQueryEvent remote FIND_NODE);
      Called (openConnection_ remote)]
     ++ Called (newStream_ PROTOCOL (Some 7%nat))
     :: [Called (sink_ 7 (lp_encode (serialize request)));
         Called (next_ 7);
         Called (next_ 7);
         Called (dispatchEvent_ "peer" peerA);
         Called (dispatchEvent_ "peer" peerA);
         Yielded (peerResponseEvent remote FIND_NODE [peerA] [peerA] None);
         Called (close_ 7)],
     Some (Some (answering [[x2a]]), Returned)) /\
  In (Called (close_ 7))
    [Called (sink_ 7 (lp_encode (serialize request)));
     Called (next_ 7);
     Called (next_ 7);
     Called (dispatchEvent_ "peer" peerA);
     Called (dispatchEvent_ "peer" peerA);
     Yielded (peerResponseEvent remote FIND_NODE [peerA] [peerA] None);
     Called (close_ 7)].
Proof.
  split; [reflexivity|].
  exact (streams_closed_on_every_exit serialize deserialize lp_encode lp_decode
           online remote request noOptions [Next; Next; Next; Return]
           _ (Some (answering [[x2a]]), Returned) (or_introl eq_refl)
           [Yielded (dialingPeerEvent remote);
            Yielded (sendingQueryEvent remote FIND_NODE);
            Called (openConnection_ remote)]
           _ PROTOCOL 7%nat eq_refl).
Defined.

Lemma peer_event_for_each_mention_witness :
  sink (abortable deaf noOptions) (lp_encode (serialize request))
  = Rejected writeError /\
  lp_decode (piped (abortable deaf noOptions) (lp_encode (serialize request)))
  = Chunk [x2a] (Failed writeError) /\
  deserialize [x2a] = Resolved response /\
  dispatched (fst (drain (_writeReadMessage deserialize lp_encode lp_decode
                            deaf (serialize request) noOptions tt)))
  = [("peer", peerA); ("peer", peerA)].
Proof.
  repeat (split; [reflexivity|]).
  exact (proj1 (proj2
    (peer_event_for_each_mention deserialize lp_encode lp_decode
       deaf (serialize request) noOptions tt
       [x2a] (Failed writeError) response eq_refl eq_refl))).
Defined.

(** C6, as stated, fails: a message that names [peerA] both as a closer
    peer and as a provider makes [_writeReadMessage] dispatch two 'peer'
    events for it, not one. *)
Lemma peer_named_twice_gets_two_events :
  events_for (id peerA)
    (fst (drain (_writeReadMessage deserialize lp_encode lp_decode
                   (answering [[x2a]]) (serialize request) noOptions tt)))
  = 2%nat /\
  ~ one_event_per_distinct_peer
      (drain (_writeReadMessage deserialize lp_encode lp_decode
                (answering [[x2a]]) (serialize request) noOptions tt)).
Proof.
  split; [reflexivity|].
  intros H. specialize (H response eq_refl (id peerA) (or_introl eq_refl)).
  vm_compute in H. discriminate H.
Qed.

End NetworkFacts.

(* ================================================================== *)
(** * Properties of the DHT root *)
(* ================================================================== *)

Module KadDHTFacts.
Import JS Libp2p KadDHT.

Lemma no_address_left {A : Type} (f : A -> bool) (l : list A) :
  (List.length (filter f l) =? 0)%nat = negb (existsb f l).
Proof.
  induction l as [|a l IH]; [reflexivity|].
  simpl. destruct (f a); [reflexivity | exact IH].
Qed.

(** [Math.ceil(k / 2)] is the least integer whose double reaches [k]. *)
Lemma Math_ceil_half (k : Z) :
  (k <= 2 * Math_ceil (inject_Z k / 2) < k + 2)%Z.
Proof.
  unfold Math_ceil.
  pose proof (Qle_ceiling (inject_Z k / 2)) as Hle.
  pose proof (Qceiling_lt (inject_Z k / 2)) as Hlt.
  set (c := Qceiling (inject_Z k / 2)) in *.
  unfold Qle, Qlt, Qdiv, Qmult, Qinv, inject_Z in Hle, Hlt.
  simpl in Hle, Hlt. lia.
Qed.

Section Facts.

Variable isPrivateAddress : Multiaddr -> bool.
Variable isPublicAddress : Multiaddr -> bool.
Variable routingTable_add : PeerId -> settled unit.

(** C7.  [onPeerConnect] first filters the peer's addresses by mode
    (public addresses are dropped when [lan] is true, private ones
    otherwise) and then calls [routingTable.add] with the peer's id if and
    only if an address is left; it never throws and leaves the DHT's
    fields as they were. *)
Theorem onPeerConnect_adds_peer_with_address_left
  (this : KadDHT) (peerData : PeerInfo) :
  let keeps (a : Multiaddr) :=
    if lan this then negb (isPublicAddress a) else negb (isPrivateAddress a) in
  let filtered :=
    if lan this then removePublicAddresses isPublicAddress peerData
    else removePrivateAddresses isPrivateAddress peerData in
  let run :=
    drain (onPeerConnect isPrivateAddress isPublicAddress routingTable_add
             peerData this) in
  multiaddrs filtered = filter keeps (multiaddrs peerData) /\
  called (fst run)
  = (if existsb keeps (multiaddrs peerData)
     then [routingTable_add_ (id peerData)] else []) /\
  (In (routingTable_add_ (id peerData)) (called (fst run)) <->
   exists a : Multiaddr, In a (multiaddrs peerData) /\ keeps a = true) /\
  throws (snd (snd run)) = false /\
  fst (snd run) = this.
Proof.
  intros keeps filtered run.
  assert (Hfiltered : multiaddrs filtered = filter keeps (multiaddrs peerData)).
  { subst filtered keeps. now destruct (lan this). }
  assert (Hid : id filtered = id peerData).
  { subst filtered. now destruct (lan this). }
  assert (Hrun :
    run = if existsb keeps (multiaddrs peerData)
          then ([Called (routingTable_add_ (id peerData))], (this, Normal tt))
          else ([], (this, Returned))).
  { subst run. unfold onPeerConnect, bind, get. simpl. fold filtered.
    rewrite Hfiltered, Hid, no_address_left.
    destruct (existsb keeps (multiaddrs peerData)); simpl; [|reflexivity].
    unfold try_catch, await, ret. simpl.
    now destruct (routingTable_add (id peerData)) as [[]|e]. }
  rewrite Hrun. split; [exact Hfiltered|].
  destruct (existsb keeps (multiaddrs peerData)) eqn:Hkeeps; simpl.
  - repeat split; auto. intros _. apply existsb_exists. exact Hkeeps.
  - repeat split; auto; [intros []|].
    intros Hex. apply existsb_exists in Hex. congruence.
Qed.

End Facts.


(** C9.  The constructor gives the query manager
    [disjointPaths = Math.ceil(kBucketSize / 2)], the least integer whose
    double reaches [kBucketSize], where [kBucketSize] is 20 when the
    option is unset: by default there are 10 disjoint paths. *)
Theorem disjointPaths_is_half_bucket_size (init : KadDHTInit.KadDHTInit) :
  let K := kBucketSize (constructor init) in
  let D := disjointPaths (queryManager (constructor init)) in
  K = nullish (KadDHTInit.kBucketSize init) 20%Z /\
  D = Math_ceil (inject_Z K / 2) /\
  (K <= 2 * D < K + 2)%Z /\
  forall (c : option bool) (q : option Z) (l : option bool) (p : option string),
    disjointPaths (queryManager
      (constructor {| KadDHTInit.kBucketSize := None;
                      KadDHTInit.clientMode := c;
                      KadDHTInit.querySelfInterval := q;
                      KadDHTInit.lan := l;
                      KadDHTInit.protocolPrefix := p |}))
    = 10%Z.
Proof.
  intros K D. split; [reflexivity|]. split; [reflexivity|].
  split; [|reflexivity].
  subst K D. unfold constructor. simpl. apply Math_ceil_half.
Qed.

(** ** The properties at work on a concrete host *)


(** On the WAN, a peer with a public address is added and a peer with
    private addresses only is not. *)
Example onPeerConnect_wan :
  called (fst (drain (onPeerConnect Examples.isPrivateAddress
                        Examples.isPublicAddress Examples.routingTable_add
                        Examples.peerA Examples.dht)))
  = [routingTable_add_ (id Examples.peerA)] /\
  called (fst (drain (onPeerConnect Examples.isPrivateAddress
                        Examples.isPublicAddress Examples.routingTable_add
                        Examples.peerB Examples.dht)))
  = [].
Proof. split; reflexivity. Qed.

Example default_protocol_and_paths :
  protocol (constructor Examples.defaults) = "/ipfs/kad/1.0.0" /\
  disjointPaths (queryManager (constructor Examples.defaults)) = 10%Z.
Proof. split; reflexivity. Qed.

End KadDHTFacts.

(* ================================================================== *)
(** * Properties of the ping arbitration *)
(* ================================================================== *)

Module RoutingTableFacts.
Import JS Libp2p RoutingTable JSFacts.

Lemma same_id_true (a b : Uint8Array) : same_id a b = true <-> a = b.
Proof. unfold same_id. destruct (bytes_eq_dec a b); split; congruence. Qed.

Lemma holds_In (i : Uint8Array) (b : Bucket) :
  holds i b = true <-> In i (map id b).
Proof.
  unfold holds. rewrite existsb_exists, in_map_iff. split.
  - intros (c & Hin & Hc). apply same_id_true in Hc. eauto.
  - intros (c & Hc & Hin). exists c. split; [exact Hin|].
    now apply same_id_true.
Qed.

Lemma evict_In (i j : Uint8Array) (b : Bucket) :
  In j (map id (evict i b)) <-> In j (map id b) /\ j <> i.
Proof.
  unfold evict. rewrite !in_map_iff. split.
  - intros (c & <- & Hin). apply filter_In in Hin as [Hin Hc].
    split; [eauto|]. intros Heq.
    apply negb_true_iff in Hc.
    assert (same_id i (id c) = true) by now apply same_id_true.
    congruence.
  - intros [(c & <- & Hin) Hne]. exists c. split; [reflexivity|].
    apply filter_In. split; [exact Hin|].
    apply negb_true_iff. destruct (same_id i (id c)) eqn:Hc; [|reflexivity].
    apply same_id_true in Hc. congruence.
Qed.

Lemma refresh_In (now : nat) (old : Contact) (j : Uint8Array) (b : Bucket) :
  In j (map id (refresh now old b)) <-> In j (map id b).
Proof.
  unfold refresh. destruct (holds (id old) b) eqn:Hold; [|reflexivity].
  apply holds_In in Hold.
  rewrite map_app, in_app_iff, evict_In. simpl.
  destruct (bytes_eq_dec j (id old)) as [->|Hne]; intuition congruence.
Qed.

Lemma replace_In (old new : Contact) (j : Uint8Array) (b : Bucket) :
  In j (map id (replace old new b)) <->
  if holds (id old) b
  then (In j (map id b) /\ j <> id old) \/ j = id new
  else In j (map id b).
Proof.
  unfold replace. destruct (holds (id old) b); [|reflexivity].
  rewrite map_app, in_app_iff, evict_In. simpl. intuition congruence.
Qed.

Lemma kb_get_None (this : RoutingTable) (i : Uint8Array) :
  kb_get this i = None <->
  forall b : Bucket, In b (kb this) -> ~ In i (map id b).
Proof.
  unfold kb_get. split.
  - intros Hfind b Hb Hi. apply in_map_iff in Hi as (c & <- & Hc).
    assert (Hin : In c (List.concat (kb this))) by (apply in_concat; eauto).
    pose proof (find_none _ _ Hfind c Hin) as Hfalse. simpl in Hfalse.
    assert (same_id (id c) (id c) = true) by now apply same_id_true.
    congruence.
  - intros Hnone. destruct (find _ _) as [c|] eqn:Hfind; [|reflexivity].
    apply find_some in Hfind as [Hin Hc].
    apply in_concat in Hin as (b & Hb & Hin).
    apply same_id_true in Hc. subst i.
    exfalso. apply (Hnone b Hb). now apply in_map.
Qed.

Lemma kb_get_Some (this : RoutingTable) (i : Uint8Array) (b : Bucket) :
  In b (kb this) -> In i (map id b) -> kb_get this i <> None.
Proof.
  intros Hb Hi Hnone. exact (proj1 (kb_get_None this i) Hnone b Hb Hi).
Qed.

Lemma ping_run (this s : RoutingTable) (c : Contact) :
  snd (drain (ping this c s)) = (s, Normal (responds this c)).
Proof.
  unfold ping, responds, try_catch, bind, lift, await, call, ret. simpl.
  destruct (getConnectionManager (components this)) as [cm|e]; simpl;
    [|reflexivity].
  destruct (openConnection cm (peer c) _) as [conn|e]; simpl; [|reflexivity].
  destruct (newStream conn (protocol this)) as [stream|e]; reflexivity.
Qed.

(** C1.  When a new peer is to be inserted into a full bucket, the
    arbitration job queued by [_onPing] pings the bucket's oldest peer and
    the outcome follows that peer's liveness: if opening the DHT protocol
    stream to it succeeds, the new peer is absent from the table afterwards
    and the old peer is still there; if the dial or the stream is rejected,
    the old peer is gone and the new peer is in the table. *)
Theorem ping_arbitration_follows_liveness
  (this : RoutingTable) (bucket : Bucket) (newPeer : Contact) (now : nat) :
  pingQueue this = [] ->
  In bucket (kb this) ->
  List.length bucket = kBucketSize this ->
  (0 < kBucketSize this)%nat ->
  kb_get this (id newPeer) = None ->
  exists oldest : Contact,
    hd_error bucket = Some oldest /\
    let after := fst (snd (drain (runNext now (_onPing this bucket newPeer)))) in
    (responds this oldest = true ->
     kb_get after (id newPeer) = None /\ kb_get after (id oldest) <> None) /\
    (responds this oldest = false ->
     kb_get after (id oldest) = None /\ kb_get after (id newPeer) <> None).
Proof.
  intros Hqueue Hbucket Hfull HK Hnew.
  destruct bucket as [|oldest others]; [simpl in Hfull; lia|].
  exists oldest. split; [reflexivity|].
  assert (Hold : In (id oldest) (map id (oldest :: others))) by now left.
  assert (Hne : id oldest <> id newPeer).
  { intros Heq. rewrite Heq in Hold.
    exact (proj1 (kb_get_None this _) Hnew _ Hbucket Hold). }
  unfold runNext, _onPing, bind, get, put. simpl. rewrite Hqueue. simpl.
  unfold arbitrate, bind, get, put. simpl.
  set (queued := set_pingQueue this []).
  rewrite (drain_bind _ _ queued (responds queued oldest) (ping_run _ _ _)).
  change (responds queued oldest) with (responds this oldest).
  destruct (responds this oldest); simpl; split; try discriminate; intros _.
  - split.
    + apply kb_get_None. simpl. intros b Hb Hin.
      apply in_map_iff in Hb as (b0 & <- & Hb0).
      apply refresh_In in Hin.
      exact (proj1 (kb_get_None this _) Hnew _ Hb0 Hin).
    + apply kb_get_Some with (refresh now oldest (oldest :: others)).
      * simpl. apply in_map. exact Hbucket.
      * apply refresh_In. exact Hold.
  - split.
    + apply kb_get_None. simpl. intros b Hb Hin.
      apply in_map_iff in Hb as (b0 & <- & Hb0).
      apply replace_In in Hin.
      destruct (holds (id oldest) b0) eqn:Hholds.
      * destruct Hin as [[_ Hin]|Hin]; congruence.
      * apply holds_In in Hin. congruence.
    + apply kb_get_Some with (replace oldest newPeer (oldest :: others)).
      * simpl. apply in_map. exact Hbucket.
      * apply replace_In.
        apply holds_In in Hold. rewrite Hold. now right.
Qed.


(** ** The routing table's tests *)

Import Examples.

Lemma ping_arbitration_follows_liveness_witness :
  kb_get (table unreachable) (id newPeer) = None /\
  responds (table unreachable) oldPeer = false /\
  kb_get (fst (snd (drain (runNext 5 (_onPing (table unreachable)
                                        [oldPeer] newPeer)))))
    (id oldPeer) = None /\
  kb_get (fst (snd (drain (runNext 5 (_onPing (table unreachable)
                                        [oldPeer] newPeer)))))
    (id newPeer) <> None.
Proof.
  destruct (ping_arbitration_follows_liveness (table unreachable)
              [oldPeer] newPeer 5 eq_refl (or_introl eq_refl) eq_refl
              (le_n 1) eq_refl)
    as (oldest & Holdest & _ & Hfails).
  injection Holdest as <-.
  split; [reflexivity|]. split; [reflexivity|].
  exact (Hfails eq_refl).
Defined.

(** "favours old peers that respond to pings": [_onPing] is called on
    the empty table, the old peer is added, then the queued job runs
    with a dial that succeeds. *)
Example favours_old_peers_that_respond_to_pings :
  let host := reachable (answering []) in
  let queued := _onPing (set_kb (table host) []) [oldPeer] newPeer in
  let run := drain (runNext 5 (set_kb queued [[oldPeer]])) in
  called (fst run)
  = [Network.openConnection_ (peer oldPeer);
     Network.newStream_ PROTOCOL (Some 7%nat);
     Network.close_ 7] /\
  kb_get (fst (snd run)) (id newPeer) = None /\
  kb_get (fst (snd run)) (id oldPeer) <> None.
Proof. repeat split. discriminate. Qed.

(** "evicts oldest peer that does not respond to ping": the same, with
    a dial that is rejected. *)
Example evicts_oldest_peer_that_does_not_respond_to_ping :
  let queued := _onPing (set_kb (table unreachable) []) [oldPeer] newPeer in
  let run := drain (runNext 5 (set_kb queued [[oldPeer]])) in
  called (fst run) = [Network.openConnection_ (peer oldPeer)] /\
  kb_get (fst (snd run)) (id newPeer) <> None /\
  kb_get (fst (snd run)) (id oldPeer) = None.
Proof. repeat split. discriminate. Qed.

End RoutingTableFacts.

(* ================================================================== *)
(** * More properties of the network layer *)
(* ================================================================== *)

Module NetworkMore.
Import JS Libp2p Message QueryEvents Network NetworkRuns JSFacts.

Lemma count_app (kind : Io -> bool) (l1 l2 : list (item QueryEvent Io)) :
  count kind (l1 ++ l2) = (count kind l1 + count kind l2)%nat.
Proof.
  induction l1 as [|[ev|io] l1 IH]; simpl; [reflexivity | exact IH |].
  rewrite IH. lia.
Qed.

Lemma count_dispatches (kind : Io -> bool) (name : string) (l : list PeerInfo) :
  (forall d : PeerInfo, kind (dispatchEvent_ name d) = false) ->
  count kind (map Called (map (dispatchEvent_ name) l)) = 0%nat.
Proof.
  intros Hkind. induction l as [|d l IH]; simpl; [reflexivity|].
  now rewrite Hkind, IH.
Qed.

Lemma count_reads (kind : Io -> bool) (sid n : nat) :
  count kind (map Called (repeat (next_ sid) n))
  = if kind (next_ sid) then n else 0%nat.
Proof.
  induction n as [|n IH]; simpl; [now destruct (kind _)|].
  rewrite IH. now destruct (kind _).
Qed.

Lemma close_comes_last_quiet (ios : list Io) (rest : list (item QueryEvent Io)) :
  forallb (fun io => negb (is_closing io)) ios = true ->
  close_comes_last (map Called ios ++ rest) = close_comes_last rest.
Proof.
  induction ios as [|io ios IH]; simpl; [reflexivity|].
  intros H. apply andb_true_iff in H as [Hio H].
  destruct io; try discriminate; simpl; auto.
Qed.

Lemma quiet_dispatches (name : string) (l : list PeerInfo) :
  forallb (fun io => negb (is_closing io)) (map (dispatchEvent_ name) l) = true.
Proof. induction l as [|d l IH]; [reflexivity | exact IH]. Qed.

Lemma quiet_reads (sid n : nat) :
  forallb (fun io => negb (is_closing io)) (repeat (next_ sid) n) = true.
Proof. induction n as [|n IH]; [reflexivity | exact IH]. Qed.

Lemma close_comes_last_sound (log : list (item QueryEvent Io)) :
  close_comes_last log = true ->
  forall (l1 l2 : list (item QueryEvent Io)) (sid : nat),
    log = l1 ++ Called (close_ sid) :: l2 -> l2 = [].
Proof.
  intros Hlog l1. revert log Hlog.
  induction l1 as [|i l1 IH]; intros log Hlog l2 sid ->; simpl in Hlog.
  - now destruct l2.
  - destruct i as [ev|[]]; try (eapply IH; eauto; fail).
    destruct l1; discriminate.
Qed.

Lemma addressed_dispatches (to : PeerId) (protocol name : string)
  (data : Uint8Array) (l : list PeerInfo) :
  Forall (addressed to protocol data) (map Called (map (dispatchEvent_ name) l)).
Proof. induction l as [|d l IH]; simpl; constructor; simpl; auto. Qed.

Lemma addressed_reads (to : PeerId) (protocol : string)
  (data : Uint8Array) (sid n : nat) :
  Forall (addressed to protocol data) (map Called (repeat (next_ sid) n)).
Proof. induction n as [|n IH]; simpl; constructor; simpl; auto. Qed.

Section Facts.

Variable serialize : Message -> Uint8Array.
Variable deserialize : Uint8Array -> settled Message.
Variable lp_encode : Uint8Array -> Uint8Array.
Variable lp_decode : Source -> Source.

Local Opaque _writeReadMessage _writeMessage.

Ltac unfold_js :=
  unfold try_catch_finally, try_finally, try_catch, close_stream,
    bind, yield, put, get, lift, await, call, ret, throw, return_ in *.

Ltac push_performs :=
  rewrite ?bind_performs, ?catch_performs, ?finally_performs,
    ?drain_performs, ?drive_performs.

Ltac resume script :=
  destruct script as [|[| |?] script]; simpl.

(** Every item of a run is well addressed. *)
Ltac all_addressed :=
  repeat first
    [ apply Forall_nil
    | apply addressed_dispatches
    | apply addressed_reads
    | apply Forall_cons; [simpl; auto|]
    | apply Forall_app; split ].

(** Reads the discipline of a run off its record. *)
Ltac disciplined :=
  let H := fresh in
  solve
    [ intros H; injection H as <- <-;
      repeat match goal with |- _ /\ _ => split end;
      try (intros; discriminate);
      intros;
      try all_addressed;
      simpl;
      rewrite ?count_app, ?count_reads,
        ?(count_dispatches is_dial), ?(count_dispatches is_stream),
        ?(count_dispatches is_write), ?(count_dispatches is_read),
        ?(count_dispatches is_closing) by (intros; reflexivity);
      rewrite ?close_comes_last_quiet
        by (apply quiet_dispatches || apply quiet_reads);
      simpl;
      first [reflexivity | lia | congruence] ].

Lemma sendRequest_discipline
  (this : Network) (to : PeerId) (msg : Message) (options : AbortOptions)
  (script : list resume) (log : list (item QueryEvent Io))
  (st : option (option Stream * completion unit)) :
  generator (sendRequest serialize deserialize lp_encode lp_decode
               this to msg options) None script
  = (log, st) ->
  (count is_write log = 0%nat -> count is_read log = 0%nat) /\
  (count is_write log <= count is_stream log)%nat /\
  (count is_stream log <= count is_dial log)%nat /\
  (count is_dial log <= 1)%nat /\
  (st <> None -> count is_closing log = count is_stream log) /\
  (st = None -> count is_closing log = 0%nat) /\
  close_comes_last log = true /\
  Forall (addressed to (protocol this) (lp_encode (serialize msg))) log.
Proof.
  unfold generator, sendRequest.
  resume script; try disciplined.
  destruct (running this); simpl; [|disciplined].
  unfold_js. simpl.
  resume script; try disciplined.
  resume script; try disciplined.
  destruct (getConnectionManager (components this)) as [cm|e0]; simpl;
    [|resume script; disciplined].
  destruct (openConnection cm to options) as [conn|e0]; simpl;
    [|resume script; disciplined].
  destruct (newStream conn (protocol this)) as [stream|e0]; simpl;
    [|resume script; disciplined].
  rewrite NetworkFacts.writeReadMessage_tree. simpl. push_performs.
  destruct (lp_decode _) as [|buf rest|e0]; simpl;
    [resume script; disciplined| |resume script; disciplined].
  destruct (deserialize buf) as [response|e0]; simpl;
    [|resume script; disciplined].
  push_performs. simpl.
  resume script; try disciplined.
  resume script; disciplined.
Qed.

Lemma sendMessage_discipline
  (this : Network) (to : PeerId) (msg : Message) (options : AbortOptions)
  (script : list resume) (log : list (item QueryEvent Io))
  (st : option (option Stream * completion unit)) :
  generator (sendMessage serialize lp_encode this to msg options) None script
  = (log, st) ->
  (count is_write log = 0%nat -> count is_read log = 0%nat) /\
  (count is_write log <= count is_stream log)%nat /\
  (count is_stream log <= count is_dial log)%nat /\
  (count is_dial log <= 1)%nat /\
  (st <> None -> count is_closing log = count is_stream log) /\
  (st = None -> count is_closing log = 0%nat) /\
  close_comes_last log = true /\
  Forall (addressed to (protocol this) (lp_encode (serialize msg))) log.
Proof.
  unfold generator, sendMessage.
  resume script; try disciplined.
  destruct (running this); simpl; [|disciplined].
  unfold_js. simpl.
  resume script; try disciplined.
  resume script; try disciplined.
  destruct (getConnectionManager (components this)) as [cm|e0]; simpl;
    [|resume script; disciplined].
  destruct (openConnection cm to options) as [conn|e0]; simpl;
    [|resume script; disciplined].
  destruct (newStream conn (protocol this)) as [stream|e0]; simpl;
    [|resume script; disciplined].
  rewrite NetworkFacts.writeMessage_tree. simpl. push_performs.
  destruct (source_error _) as [e0|]; simpl.
  - resume script; disciplined.
  - resume script; try disciplined.
    resume script; disciplined.
Qed.

(** X1.  Whatever the peer does and however the consumer resumes the
    generator, a call of [sendRequest] or [sendMessage] dials at most
    once, opens no more streams than it dialled connections and starts
    no more writes than it opened streams: at most one of each.  It
    pulls nothing from a stream unless it started a write. *)
Theorem one_connection_one_stream_per_call
  (this : Network) (to : PeerId) (msg : Message) (options : AbortOptions)
  (script : list resume) :
  let request :=
    fst (generator (sendRequest serialize deserialize lp_encode lp_decode
                      this to msg options) None script) in
  let message :=
    fst (generator (sendMessage serialize lp_encode this to msg options)
           None script) in
  ((count is_write request = 0%nat -> count is_read request = 0%nat) /\
   (count is_write request <= count is_stream request)%nat /\
   (count is_stream request <= count is_dial request)%nat /\
   (count is_dial request <= 1)%nat) /\
  ((count is_write message = 0%nat -> count is_read message = 0%nat) /\
   (count is_write message <= count is_stream message)%nat /\
   (count is_stream message <= count is_dial message)%nat /\
   (count is_dial message <= 1)%nat).
Proof.
  intros request message. subst request message. split.
  - destruct (generator (sendRequest _ _ _ _ _ _ _ _) _ _) as [log st] eqn:Hrun.
    apply sendRequest_discipline in Hrun. simpl. tauto.
  - destruct (generator (sendMessage _ _ _ _ _ _) _ _) as [log st] eqn:Hrun.
    apply sendMessage_discipline in Hrun. simpl. tauto.
Qed.

(** X2.  [stream.close()] is the last thing a run of [sendRequest] or
    [sendMessage] does: nothing follows it, a generator that is still
    suspended has closed nothing (the stream stays open while the consumer
    holds the [peer_response] event), and a generator that has run to its
    end has closed as many streams as it opened. *)
Theorem stream_closed_once_at_the_end
  (this : Network) (to : PeerId) (msg : Message) (options : AbortOptions)
  (script : list resume) (run : run (option Stream) QueryEvent Io unit) :
  run = generator (sendRequest serialize deserialize lp_encode lp_decode
                     this to msg options) None script \/
  run = generator (sendMessage serialize lp_encode this to msg options)
          None script ->
  (snd run = None -> count is_closing (fst run) = 0%nat) /\
  (snd run <> None -> count is_closing (fst run) = count is_stream (fst run)) /\
  (forall (l1 l2 : list (item QueryEvent Io)) (sid : nat),
     fst run = l1 ++ Called (close_ sid) :: l2 -> l2 = []).
Proof.
  intros Hrun.
  assert (H : (snd run <> None ->
               count is_closing (fst run) = count is_stream (fst run)) /\
              (snd run = None -> count is_closing (fst run) = 0%nat) /\
              close_comes_last (fst run) = true).
  { destruct run as [log st]. destruct Hrun as [Hrun|Hrun]; symmetry in Hrun.
    - apply sendRequest_discipline in Hrun. simpl. tauto.
    - apply sendMessage_discipline in Hrun. simpl. tauto. }
  destruct H as (Hdone & Hsuspended & Hlast).
  split; [exact Hsuspended|]. split; [exact Hdone|].
  apply close_comes_last_sound. exact Hlast.
Qed.

(** X3.  Every connection a call of [sendRequest] or [sendMessage] asks
    for is to the peer it was given, every stream is opened on the
    network's own protocol, and what is written is the length-prefixed
    serialization of the message it was given. *)
Theorem calls_are_addressed
  (this : Network) (to : PeerId) (msg : Message) (options : AbortOptions)
  (script : list resume) :
  Forall (addressed to (protocol this) (lp_encode (serialize msg)))
    (fst (generator (sendRequest serialize deserialize lp_encode lp_decode
                       this to msg options) None script)) /\
  Forall (addressed to (protocol this) (lp_encode (serialize msg)))
    (fst (generator (sendMessage serialize lp_encode this to msg options)
            None script)).
Proof.
  split.
  - destruct (generator (sendRequest _ _ _ _ _ _ _ _) _ _) as [log st] eqn:Hrun.
    apply sendRequest_discipline in Hrun. simpl. tauto.
  - destruct (generator (sendMessage _ _ _ _ _ _) _ _) as [log st] eqn:Hrun.
    apply sendMessage_discipline in Hrun. simpl. tauto.
Qed.

(** X4.  The generators are lazy: unless the consumer has resumed one
    with [next()] three times (to start it and to take the first two
    events), no collaborator has been called: nothing is dialled for a
    consumer that stops at [dialing_peer] or [sending_query]. *)
Theorem nothing_dialled_before_the_third_next
  (this : Network) (to : PeerId) (msg : Message) (options : AbortOptions)
  (script : list resume) :
  (forall rest : list resume, script <> Next :: Next :: Next :: rest) ->
  called (fst (generator (sendRequest serialize deserialize lp_encode lp_decode
                            this to msg options) None script)) = [] /\
  called (fst (generator (sendMessage serialize lp_encode this to msg options)
                 None script)) = [].
Proof.
  intros Hscript. unfold generator, sendRequest, sendMessage.
  destruct script as [|[| |e1] script]; try (split; reflexivity).
  destruct (running this); simpl; [|split; reflexivity].
  unfold_js. simpl.
  destruct script as [|[| |e2] script]; try (split; reflexivity).
  destruct script as [|[| |e3] script]; try (split; reflexivity).
  now destruct (Hscript script).
Qed.

(** X5.  [_writeReadMessage] announces peers only when it returns a
    message: whenever it throws (rejected write, broken or empty stream,
    message that does not deserialize) it has dispatched no event.  A
    rejected write does not keep it from reading: whatever becomes of
    the one write it starts, the readable side of the stream is pulled
    to its end. *)
Theorem writeReadMessage_failure_is_silent {St : Type}
  (stream : Stream) (msg : Uint8Array) (options : AbortOptions) (s : St) :
  let run :=
    drain (_writeReadMessage deserialize lp_encode lp_decode stream msg options s) in
  (throws (snd (snd run)) = true ->
   dispatched (fst run) = [] /\ peer_events (fst run) = []) /\
  count is_write (fst run) = 1%nat /\
  count is_read (fst run)
  = pulls (source (abortable stream options) (lp_encode msg)).
Proof.
  cbv zeta. rewrite NetworkFacts.writeReadMessage_tree. simpl. push_performs.
  simpl.
  rewrite ?NetworkFacts.dispatched_write, ?NetworkFacts.peer_events_write,
    NetworkFacts.dispatched_app, NetworkFacts.peer_events_app,
    NetworkFacts.dispatched_reads, NetworkFacts.peer_events_reads,
    !count_app, !count_reads.
  simpl.
  destruct (lp_decode _) as [|buf rest|e1]; simpl;
    try (repeat split; lia).
  destruct (deserialize buf) as [message|e1]; simpl;
    try (repeat split; lia).
  push_performs. simpl.
  rewrite !count_app, !count_dispatches by (intros; reflexivity). simpl.
  repeat split; try lia; discriminate.
Qed.

(** X6.  The [peer_response] event is yielded inside the [try] block:
    an error the consumer throws into the generator at that point is
    caught by the generator's own [catch].  It comes back as a
    [query_error] event after the [peer_response], the stream is closed,
    and the generator completes normally instead of rethrowing. *)
Theorem error_thrown_at_the_response_is_reported
  (this : Network) (to : PeerId) (msg : Message) (options : AbortOptions)
  (stream : Stream) (buf : Uint8Array) (rest : Source) (response : Message)
  (e : Error) :
  isStarted this = true ->
  opens this to options stream ->
  sink (abortable stream options) (lp_encode (serialize msg)) = Resolved tt ->
  lp_decode (source (abortable stream options) (lp_encode (serialize msg)))
  = Chunk buf rest ->
  deserialize buf = Resolved response ->
  let run :=
    generator (sendRequest serialize deserialize lp_encode lp_decode
                 this to msg options)
      None [Next; Next; Next; Throw e; Next] in
  yielded (fst run)
  = [dialingPeerEvent to; sendingQueryEvent to (type msg);
     peerResponseEvent to (type response) (closerPeers response)
       (providerPeers response) (record response);
     queryErrorEvent to e] /\
  snd run = Some (Some stream, Normal tt) /\
  count is_closing (fst run) = 1%nat.
Proof.
  intros Hrun (cm & conn & Hcm & Hconn & Hstream) Hsink Hread Hmsg. cbv zeta.
  unfold isStarted in Hrun. unfold generator, sendRequest. rewrite Hrun. unfold_js. simpl.
  rewrite Hcm. simpl. rewrite Hconn. simpl. rewrite Hstream. simpl.
  rewrite NetworkFacts.writeReadMessage_tree. simpl. push_performs.
  rewrite (NetworkFacts.resolved_write_pipes_the_source _ _ Hsink), Hread.
  simpl. rewrite Hmsg. simpl. push_performs. simpl.
  rewrite !yielded_app, !yielded_calls, !count_app, count_reads,
    (count_dispatches is_closing) by (intros; reflexivity).
  repeat split.
Qed.

(** X7.  A response that is missing or cannot be deserialized is
    reported like an I/O failure: on a started network, when the stream
    ends without a frame [sendRequest] ends with a [query_error] carrying
    [ERR_NO_MESSAGE_RECEIVED], when [Message.deserialize] throws it ends
    with a [query_error] carrying that error, and in both cases no 'peer'
    event is dispatched. *)
Theorem unusable_response_is_a_query_error
  (this : Network) (to : PeerId) (msg : Message) (options : AbortOptions)
  (stream : Stream) :
  isStarted this = true ->
  opens this to options stream ->
  sink (abortable stream options) (lp_encode (serialize msg)) = Resolved tt ->
  let frames :=
    lp_decode (source (abortable stream options) (lp_encode (serialize msg))) in
  let run :=
    drain (sendRequest serialize deserialize lp_encode lp_decode
             this to msg options None) in
  let query_error (e : Error) :=
    [dialingPeerEvent to; sendingQueryEvent to (type msg); queryErrorEvent to e] in
  (frames = Ended ->
   yielded (fst run) = query_error ERR_NO_MESSAGE_RECEIVED /\
   peer_events (fst run) = []) /\
  (forall (buf : Uint8Array) (rest : Source) (e : Error),
     frames = Chunk buf rest ->
     deserialize buf = Rejected e ->
     yielded (fst run) = query_error e /\ peer_events (fst run) = []).
Proof.
  intros Hrun (cm & conn & Hcm & Hconn & Hstream) Hsink. cbv zeta.
  unfold isStarted in Hrun. unfold sendRequest. rewrite Hrun. unfold_js. simpl.
  rewrite Hcm. simpl. rewrite Hconn. simpl. rewrite Hstream. simpl.
  rewrite NetworkFacts.writeReadMessage_tree. simpl. push_performs.
  rewrite (NetworkFacts.resolved_write_pipes_the_source _ _ Hsink). simpl.
  rewrite ?NetworkFacts.peer_events_write, !yielded_app, !yielded_calls,
    !NetworkFacts.peer_events_app, !NetworkFacts.peer_events_reads.
  split.
  - intros ->. simpl. split; reflexivity.
  - intros buf rest e -> Hmsg. simpl. rewrite Hmsg. simpl. split; reflexivity.
Qed.


(** X9.  [sendMessage] does not stop at the write: once the write has
    resolved it pulls from the stream until the stream ends or breaks
    (one pull for each chunk and one for the end).  It never dispatches a
    'peer' event. *)
Theorem sendMessage_reads_to_the_end
  (this : Network) (to : PeerId) (msg : Message) (options : AbortOptions) :
  let run := drain (sendMessage serialize lp_encode this to msg options None) in
  peer_events (fst run) = [] /\
  (isStarted this = true ->
   forall stream : Stream,
     opens this to options stream ->
     sink (abortable stream options) (lp_encode (serialize msg)) = Resolved tt ->
     count is_read (fst run)
     = pulls (source (abortable stream options) (lp_encode (serialize msg)))).
Proof.
  cbv zeta. unfold isStarted, sendMessage.
  destruct (running this); simpl; [|split; [reflexivity | discriminate]].
  unfold_js. simpl.
  destruct (getConnectionManager (components this)) as [cm|e0] eqn:Hcm; simpl.
  2:{ split; [reflexivity|].
      intros _ s0 (cm' & c' & ? & ? & ?). congruence. }
  destruct (openConnection cm to options) as [conn|e0] eqn:Hconn; simpl.
  2:{ split; [reflexivity|].
      intros _ s0 (cm' & c' & ? & ? & ?). congruence. }
  destruct (newStream conn (protocol this)) as [stream|e0] eqn:Hstream; simpl.
  2:{ split; [reflexivity|].
      intros _ s0 (cm' & c' & ? & ? & ?). congruence. }
  rewrite NetworkFacts.writeMessage_tree. simpl. push_performs.
  assert (Hsame : forall s0 : Stream, opens this to options s0 -> s0 = stream).
  { intros s0 (cm' & c' & ? & ? & ?). congruence. }
  destruct (source_error _) as [e0|] eqn:Hsrc; simpl; split.
  1,3: rewrite NetworkFacts.peer_events_app, NetworkFacts.peer_events_reads;
    reflexivity.
  all: intros _ s0 Hopen _; rewrite (Hsame s0 Hopen), count_app, count_reads;
    simpl; lia.
Qed.

End Facts.

(** X10.  Over any sequence of [init], [start] and [stop] calls a
    [Network] keeps its protocol, is started exactly when the last of the
    [start]/[stop] calls was a [start], and holds the components of the
    last [init]; whenever that leaves it stopped, [sendRequest] and
    [sendMessage] yield and call nothing. *)
Theorem network_life
  (serialize : Message -> Uint8Array) (deserialize : Uint8Array -> settled Message)
  (lp_encode : Uint8Array -> Uint8Array) (lp_decode : Source -> Source)
  (ops : list op) (this : Network)
  (to : PeerId) (msg : Message) (options : AbortOptions) :
  protocol (after ops this) = protocol this /\
  isStarted (after ops this) = last_running ops (isStarted this) /\
  components (after ops this) = last_components ops (components this) /\
  (last_running ops (isStarted this) = false ->
   fst (drain (sendRequest serialize deserialize lp_encode lp_decode
                 (after ops this) to msg options None)) = [] /\
   fst (drain (sendMessage serialize lp_encode
                 (after ops this) to msg options None)) = []).
Proof.
  assert (Hlife :
    protocol (after ops this) = protocol this /\
    isStarted (after ops this) = last_running ops (isStarted this) /\
    components (after ops this) = last_components ops (components this)).
  { revert this. unfold after.
    induction ops as [|o ops IH]; intros this; simpl; [auto|].
    destruct (IH (step this o)) as (Hp & Hr & Hc).
    rewrite Hp, Hr, Hc.
    destruct o as [c| |]; simpl; unfold isStarted, start;
      destruct (running this) eqn:Hrun; simpl; rewrite ?Hrun; auto. }
  destruct Hlife as (Hp & Hr & Hc).
  split; [exact Hp|]. split; [exact Hr|]. split; [exact Hc|].
  intros Hstopped. rewrite <- Hr in Hstopped. unfold isStarted in Hstopped.
  unfold sendRequest, sendMessage. rewrite Hstopped. split; reflexivity.
Qed.

(** ** The properties at work on a concrete host *)

Import Examples MoreExamples.

Lemma stream_closed_once_at_the_end_witness :
  snd (generator (sendRequest serialize deserialize lp_encode lp_decode
                    online remote request noOptions)
         None [Next; Next; Next]) = None /\
  count is_stream
    (fst (generator (sendRequest serialize deserialize lp_encode lp_decode
                       online remote request noOptions)
            None [Next; Next; Next])) = 1%nat /\
  count is_closing
    (fst (generator (sendRequest serialize deserialize lp_encode lp_decode
                       online remote request noOptions)
            None [Next; Next; Next])) = 0%nat.
Proof.
  split; [reflexivity|]. split; [reflexivity|].
  exact (proj1 (stream_closed_once_at_the_end serialize deserialize lp_encode
                  lp_decode online remote request noOptions [Next; Next; Next]
                  _ (or_introl eq_refl)) eq_refl).
Defined.

Lemma nothing_dialled_before_the_third_next_witness :
  (forall rest : list resume, [Next; Next; Return] <> Next :: Next :: Next :: rest) /\
  called (fst (generator (sendRequest serialize deserialize lp_encode lp_decode
                            online remote request noOptions)
                 None [Next; Next; Return])) = [].
Proof.
  assert (H : forall rest : list resume,
             [Next; Next; Return] <> Next :: Next :: Next :: rest)
    by (intros rest; discriminate).
  split; [exact H|].
  exact (proj1 (nothing_dialled_before_the_third_next serialize deserialize
                  lp_encode lp_decode online remote request noOptions
                  [Next; Next; Return] H)).
Defined.

Lemma online_opens_its_stream :
  opens online remote noOptions (answering [[x2a]]).
Proof. do 2 eexists. repeat split; reflexivity. Defined.

Lemma error_thrown_at_the_response_is_reported_witness :
  yielded (fst (generator (sendRequest serialize deserialize lp_encode lp_decode
                             online remote request noOptions)
                  None [Next; Next; Next; Throw dialError; Next]))
  = [dialingPeerEvent remote; sendingQueryEvent remote FIND_NODE;
     peerResponseEvent remote FIND_NODE [peerA] [peerA] None;
     queryErrorEvent remote dialError] /\
  snd (generator (sendRequest serialize deserialize lp_encode lp_decode
                    online remote request noOptions)
         None [Next; Next; Next; Throw dialError; Next])
  = Some (Some (answering [[x2a]]), Normal tt).
Proof.
  destruct (error_thrown_at_the_response_is_reported serialize deserialize
              lp_encode lp_decode online remote request noOptions
              (answering [[x2a]]) [x2a] Ended response dialError
              eq_refl online_opens_its_stream eq_refl eq_refl eq_refl)
    as (Hevents & Hdone & _).
  split; [exact Hevents | exact Hdone].
Defined.

Lemma silent_opens_its_stream :
  opens (network (reachable (answering []))) remote noOptions (answering []).
Proof. do 2 eexists. repeat split; reflexivity. Defined.

Lemma unusable_response_is_a_query_error_witness :
  lp_decode (source (abortable (answering []) noOptions)
               (lp_encode (serialize request))) = Ended /\
  yielded (fst (drain (sendRequest serialize deserialize lp_encode lp_decode
                         (network (reachable (answering [])))
                         remote request noOptions None)))
  = [dialingPeerEvent remote; sendingQueryEvent remote FIND_NODE;
     queryErrorEvent remote ERR_NO_MESSAGE_RECEIVED].
Proof.
  split; [reflexivity|].
  exact (proj1 (proj1
    (unusable_response_is_a_query_error serialize deserialize lp_encode
       lp_decode (network (reachable (answering []))) remote request noOptions
       (answering []) eq_refl silent_opens_its_stream eq_refl) eq_refl)).
Defined.



(** A rejected write does not keep [_writeReadMessage] from reading:
    the stream is still pulled, once for its end. *)
Example rejected_write_is_still_read :
  drain (_writeReadMessage deserialize lp_encode lp_decode
           refusing (serialize request) noOptions tt)
  = ([Called (sink_ 9 (lp_encode (serialize request))); Called (next_ 9)],
     (tt, Thrown writeError)).
Proof. reflexivity. Qed.

(** A message sent on the two-chunk stream pulls three times. *)
Example sendMessage_pulls_every_chunk :
  count is_read
    (fst (drain (sendMessage serialize lp_encode (network (reachable chatty))
                   remote request noOptions None))) = 3%nat.
Proof. reflexivity. Qed.

End NetworkMore.

(* ================================================================== *)
(** * More properties of the DHT root *)
(* ================================================================== *)

Module KadDHTMore.
Import JS Libp2p KadDHT JSCalls KadDHTLife.

(** Prefixing is injective. *)
Lemma append_cancel (p a b : string) : (p ++ a)%string = (p ++ b)%string -> a = b.
Proof.
  induction p as [|c p IH]; simpl; [auto|].
  intros H. injection H as H. auto.
Qed.

(** [Promise.all] resolves exactly when each promise does. *)
Lemma Promise_all_resolves (promises : list (settled unit)) :
  Promise_all promises = Resolved tt <->
  Forall (fun p => p = Resolved tt) promises.
Proof.
  induction promises as [|[[]|e] promises IH]; simpl.
  - split; auto.
  - rewrite IH. split; [intros H; constructor; auto | intros H; now inversion H].
  - split; [discriminate | intros H; inversion H; discriminate].
Qed.

Lemma components_resolve (settles : Component -> settled unit) :
  Promise_all [settles providers_; settles queryManager_; Resolved tt;
               settles routingTable_; settles topologyListener_;
               settles querySelf_] = Resolved tt <->
  (forall c : Component, c <> routingTableRefresh_ -> settles c = Resolved tt).
Proof.
  rewrite Promise_all_resolves. split.
  - intros H c Hc.
    inversion_clear H as [|? ? H1 G1]. inversion_clear G1 as [|? ? H2 G2].
    inversion_clear G2 as [|? ? _ G3]. inversion_clear G3 as [|? ? H3 G4].
    inversion_clear G4 as [|? ? H4 G5]. inversion_clear G5 as [|? ? H5 _].
    destruct c; congruence.
  - intros H. repeat constructor; apply H; discriminate.
Qed.

Lemma all_components_resolve (settles : Component -> settled unit) :
  Promise_all [settles providers_; settles queryManager_; Resolved tt;
               settles routingTable_; settles routingTableRefresh_;
               settles topologyListener_; settles querySelf_] = Resolved tt <->
  (forall c : Component, settles c = Resolved tt).
Proof.
  rewrite Promise_all_resolves. split.
  - intros H c.
    inversion_clear H as [|? ? H1 G1]. inversion_clear G1 as [|? ? H2 G2].
    inversion_clear G2 as [|? ? _ G3]. inversion_clear G3 as [|? ? H3 G4].
    inversion_clear G4 as [|? ? H4 G5]. inversion_clear G5 as [|? ? H5 G6].
    inversion_clear G6 as [|? ? H6 _].
    destruct c; congruence.
  - intros H. repeat constructor; apply H.
Qed.

Section Facts.

Variable isPrivateAddress : Multiaddr -> bool.
Variable isPublicAddress : Multiaddr -> bool.
Variable routingTable_add : PeerId -> settled unit.
Variable component_start : Component -> settled unit.
Variable component_stop : Component -> settled unit.
Variable addressBook_get : PeerId -> settled (list Address).

Ltac unfold_js :=
  unfold within, invoke, try_catch, bind, put, get, lift, await, call, ret,
    return_ in *.

(** Splits the run of [start] by what the registrar and each component
    answer. *)
Ltac cases_of_start this :=
  destruct (clientMode this) eqn:Hmode; simpl;
  (destruct (getRegistrar (components this)) as [registrar|e0] eqn:Hregistrar;
   simpl; rewrite ?Hregistrar; simpl;
   [ destruct (unhandle registrar (protocol this)) as [[]|e1] eqn:Hunhandle;
     simpl; rewrite ?Hregistrar; simpl;
     [ try (destruct (handle registrar (protocol this) rpc_onIncomingStream)
              as [[]|e2] eqn:Hhandle; simpl)
     | ]
   | ]).

Ltac cases_of_components :=
  destruct (component_start providers_) as [[]|?] eqn:Hproviders; simpl;
  destruct (component_start queryManager_) as [[]|?] eqn:HqueryManager; simpl;
  destruct (component_start routingTable_) as [[]|?] eqn:HroutingTable; simpl;
  destruct (component_start topologyListener_) as [[]|?] eqn:Htopology; simpl;
  destruct (component_start querySelf_) as [[]|?] eqn:HquerySelf; simpl;
  try (destruct (component_start routingTableRefresh_) as [[]|?] eqn:Hrefresh;
       simpl).

(** X11.  [start()] resolves exactly when the registrar lets [setMode]
    through in the DHT's current mode and the [start()] of every
    component resolves. *)
Theorem start_resolves_iff (this : KadDHT) :
  snd (snd (drain (start component_start this))) = Normal tt <->
  registrar_accepts this (mode_of this) /\
  (forall c : Component, component_start c = Resolved tt).
Proof.
  unfold start, setMode, registrar_accepts, mode_of. unfold_js. simpl.
  cases_of_start this.
  all: try (split; [discriminate|];
            intros [(r & Hr & Hu & Hh) _];
            try specialize (Hh eq_refl); congruence).
  all: cases_of_components.
  all: try (split; [discriminate | intros [_ Hall]; congruence]).
  all: split; [intros _ | reflexivity].
  all: split; [exists registrar; repeat split; auto; discriminate|].
  all: intros []; assumption.
Qed.

(** X12.  When the registrar lets [setMode] through and every component
    starts, [start()] first unregisters the protocol handler and registers
    it again only in server mode, then calls the [start()] of providers,
    query manager, network, routing table, topology listener and
    query-self in that order, and the routing-table refresh last.  The DHT
    and its network are then started; mode, protocol and the network's
    protocol and components are what they were. *)
Theorem start_in_order (this : KadDHT) :
  registrar_accepts this (mode_of this) ->
  (forall c : Component, component_start c = Resolved tt) ->
  let run := drain (start component_start this) in
  let started := fst (snd run) in
  called (fst run)
  = core (unhandle_ (protocol this))
    :: (if clientMode this then []
        else [core (handle_ (protocol this) rpc_onIncomingStream)])
    ++ [start_ providers_; start_ queryManager_; network_start_;
        start_ routingTable_; start_ topologyListener_; start_ querySelf_;
        start_ routingTableRefresh_] /\
  snd (snd run) = Normal tt /\
  isStarted started = true /\
  Network.isStarted (network started) = true /\
  mode_of started = mode_of this /\
  protocol started = protocol this /\
  Network.protocol (network started) = Network.protocol (network this) /\
  Network.components (network started) = Network.components (network this).
Proof.
  intros (registrar & Hregistrar & Hunhandle & Hhandle) Hall. cbv zeta.
  unfold mode_of in *.
  unfold start, setMode. unfold_js. simpl.
  rewrite !Hall. simpl.
  destruct (clientMode this) eqn:Hmode; simpl;
    rewrite Hregistrar; simpl; rewrite Hunhandle; simpl.
  - unfold Network.isStarted, Network.start.
    destruct (Network.running (network this)) eqn:Hn; simpl; rewrite ?Hn;
      repeat split.
  - rewrite Hregistrar. simpl. rewrite (Hhandle eq_refl). simpl.
    unfold Network.isStarted, Network.start.
    destruct (Network.running (network this)) eqn:Hn; simpl; rewrite ?Hn;
      repeat split.
Qed.

Local Opaque Promise_all.

(** X13.  [start()] sets [running] before anything else and never takes
    it back: after a start that rejects, [isStarted()] still answers
    true, in the mode the DHT had.  When the registrar refuses, no
    component and not the network is started.  When it accepts, all six
    components of the [Promise.all] are started even if one of them
    rejects, and the routing-table refresh is started exactly when all of
    them resolved. *)
Theorem failed_start_edge (this : KadDHT) :
  let run := drain (start component_start this) in
  let after := fst (snd run) in
  let six :=
    [start_ providers_; start_ queryManager_; network_start_;
     start_ routingTable_; start_ topologyListener_; start_ querySelf_] in
  isStarted after = true /\
  mode_of after = mode_of this /\
  (~ registrar_accepts this (mode_of this) ->
   filter is_start (called (fst run)) = [] /\ network after = network this) /\
  (registrar_accepts this (mode_of this) ->
   Network.isStarted (network after) = true /\
   exists refresh : list Io,
     filter is_start (called (fst run)) = six ++ refresh /\
     (refresh = [start_ routingTableRefresh_] \/ refresh = []) /\
     (refresh = [start_ routingTableRefresh_] <->
      forall c : Component,
        c <> routingTableRefresh_ -> component_start c = Resolved tt)).
Proof.
  cbv zeta. unfold start, setMode, registrar_accepts, mode_of. unfold_js.
  cbn -[Promise_all].
  assert (Hnet : Network.isStarted (Network.start (network this)) = true).
  { unfold Network.isStarted, Network.start.
    destruct (Network.running (network this)) eqn:Hn; simpl; auto. }
  cases_of_start this; cbn -[Promise_all]; rewrite ?Hmode.
  all: try solve
    [ split; [reflexivity|]; split; [reflexivity|];
      split; [ intros _; split; reflexivity
             | intros (r & Hr & Hu & Hh); try specialize (Hh eq_refl);
               congruence ] ].
  all: destruct (Promise_all _) as [[]|e] eqn:Hall; cbn -[Promise_all];
    [ destruct (component_start routingTableRefresh_) as [[]|e]; cbn | ].
  all: rewrite ?Hmode; repeat split; try reflexivity; try exact Hnet.
  all: try solve
    [ exfalso; match goal with H : ~ _ |- _ => apply H end;
      exists registrar; repeat split; auto; discriminate ].
  all: try solve
    [ eexists; split; [reflexivity|]; split; [left; reflexivity|];
      split; [ intros _; exact (proj1 (components_resolve component_start) Hall)
             | reflexivity ] ].
  all: exists []; split; [reflexivity|];
    split; [right; reflexivity|];
    split; [ discriminate
           | intros Hc; apply (components_resolve component_start) in Hc;
             congruence ].
Qed.

(** X14.  [stop()] calls the [stop()] of all seven components, in the
    order of its [Promise.all], whatever they answer, and nothing else: it
    never calls the registrar, so a protocol handler registered by
    [setMode] stays registered.  Afterwards the DHT and its network are
    stopped, in the mode they were in, even when [stop()] rejects, which
    it does exactly when the [stop()] of some component rejects. *)
Theorem stop_stops_everything (this : KadDHT) :
  let run := drain (stop component_stop this) in
  let stopped := fst (snd run) in
  called (fst run)
  = [stop_ providers_; stop_ queryManager_; network_stop_;
     stop_ routingTable_; stop_ routingTableRefresh_;
     stop_ topologyListener_; stop_ querySelf_] /\
  isStarted stopped = false /\
  Network.isStarted (network stopped) = false /\
  mode_of stopped = mode_of this /\
  protocol stopped = protocol this /\
  (snd (snd run) = Normal tt <->
   forall c : Component, component_stop c = Resolved tt).
Proof.
  cbv zeta. unfold stop, mode_of. unfold_js. cbn -[Promise_all].
  destruct (Promise_all _) as [[]|e] eqn:Hall; cbn; repeat split; auto.
  - intros _. exact (proj1 (all_components_resolve component_stop) Hall).
  - discriminate.
  - intros Hc. apply (all_components_resolve component_stop) in Hc. congruence.
Qed.

(** X15.  A 'peer' event of the network is always passed on: the
    listener hands the peer to [onPeerConnect], which calls
    [routingTable.add] only if the mode's address filter leaves an
    address, and then the DHT dispatches its own 'peer' event exactly
    once, with the peer as the network reported it (addresses
    unfiltered), also for a peer the filter rejected and also when
    [routingTable.add] rejects.  The listener never throws. *)
Theorem network_peer_is_always_announced (this : KadDHT) (peerData : PeerInfo) :
  let run :=
    drain (onNetworkPeer isPrivateAddress isPublicAddress routingTable_add
             peerData this) in
  called (fst run)
  = (if existsb (keeps isPrivateAddress isPublicAddress this)
          (multiaddrs peerData)
     then [core (routingTable_add_ (id peerData))] else [])
    ++ [dispatchEvent_ "peer" peerData] /\
  snd run = (this, Normal tt).
Proof.
  cbv zeta. unfold onNetworkPeer, onPeerConnect, keeps. unfold_js. simpl.
  destruct (lan this); simpl; rewrite KadDHTFacts.no_address_left;
    destruct (existsb _ _); simpl; try (split; reflexivity);
    destruct (routingTable_add (id peerData)) as [[]|e]; split; reflexivity.
Qed.

(** X16.  A peer reported by the topology listener is looked up in the
    address book first; it is handed to [routingTable.add] only if the
    lookup resolves with an address that the mode's filter keeps.  A
    failed lookup and a rejected [add] are swallowed: the listener never
    throws, and it dispatches no 'peer' event. *)
Theorem topology_peer_is_looked_up (this : KadDHT) (peerId : PeerId) :
  let run :=
    drain (onTopologyPeer isPrivateAddress isPublicAddress routingTable_add
             addressBook_get peerId this) in
  called (fst run)
  = addressBook_get_ peerId
    :: match addressBook_get peerId with
       | Resolved addresses =>
           if existsb (keeps isPrivateAddress isPublicAddress this)
                (map multiaddr addresses)
           then [core (routingTable_add_ peerId)] else []
       | Rejected _ => []
       end /\
  snd run = (this, Normal tt).
Proof.
  cbv zeta. unfold onTopologyPeer, onPeerConnect, keeps. unfold_js. simpl.
  destruct (addressBook_get peerId) as [addresses|e]; simpl;
    [|split; reflexivity].
  destruct (lan this); simpl; rewrite KadDHTFacts.no_address_left;
    destruct (existsb _ _); simpl; try (split; reflexivity);
    destruct (routingTable_add peerId) as [[]|e]; split; reflexivity.
Qed.

End Facts.

(** X17.  Two DHTs built with the same options but for the [lan] flag
    have the same protocol exactly when both are LAN or both are WAN: a
    LAN and a WAN DHT of one prefix never share a protocol.  The network
    each one creates uses the DHT's protocol. *)
Theorem lan_and_wan_protocols_differ
  (k q : option Z) (c : option bool) (p : option string) (l1 l2 : option bool) :
  let dht (l : option bool) :=
    constructor {| KadDHTInit.kBucketSize := k;
                   KadDHTInit.clientMode := c;
                   KadDHTInit.querySelfInterval := q;
                   KadDHTInit.lan := l;
                   KadDHTInit.protocolPrefix := p |} in
  (protocol (dht l1) = protocol (dht l2) <-> lan (dht l1) = lan (dht l2)) /\
  Network.protocol (network (dht l1)) = protocol (dht l1).
Proof.
  cbv zeta. unfold constructor. simpl. split; [|reflexivity].
  destruct l1 as [[]|], l2 as [[]|]; simpl; split; intros H;
    try reflexivity; try discriminate;
    apply append_cancel in H; discriminate.
Qed.

(** X18.  What a rejected [setMode] leaves behind.  When the registrar
    is missing or [unhandle] rejects, the DHT is unchanged and [handle] is
    not called.  When [handle] rejects in [setMode('server')], the handler
    was unregistered, [clientMode] is already false, so [getMode()]
    answers 'server' although no handler is registered. *)
Theorem rejected_setMode_edge (this : KadDHT) (mode : Mode) :
  let run := drain (setMode mode this) in
  (forall e : Error,
     getRegistrar (components this) = Rejected e \/
     (exists registrar : Registrar,
        getRegistrar (components this) = Resolved registrar /\
        unhandle registrar (protocol this) = Rejected e) ->
     snd run = (this, Thrown e) /\
     ~ In (handle_ (protocol this) rpc_onIncomingStream) (called (fst run))) /\
  (forall (registrar : Registrar) (e : Error),
     getRegistrar (components this) = Resolved registrar ->
     unhandle registrar (protocol this) = Resolved tt ->
     handle registrar (protocol this) rpc_onIncomingStream = Rejected e ->
     mode = server ->
     called (fst run)
     = [unhandle_ (protocol this);
        handle_ (protocol this) rpc_onIncomingStream] /\
     snd (snd run) = Thrown e /\
     snd (snd (drain (getMode (fst (snd run))))) = Normal server).
Proof.
  cbv zeta. unfold setMode, getMode, bind, get, put, lift, await, ret. simpl.
  split.
  - intros e [Hr|(registrar & Hr & Hu)]; rewrite Hr; simpl.
    + split; [reflexivity | intros []].
    + rewrite Hu. simpl. split; [reflexivity|].
      intros [H|[]]; discriminate H.
  - intros registrar e Hr Hu Hh ->. rewrite Hr. simpl. rewrite Hu. simpl.
    rewrite Hr. simpl. rewrite Hh. simpl. repeat split.
Qed.

Lemma network_start_keeps (n : Network.Network) :
  Network.isStarted (Network.start n) = true /\
  Network.protocol (Network.start n) = Network.protocol n /\
  Network.components (Network.start n) = Network.components n.
Proof.
  unfold Network.isStarted, Network.start.
  destruct (Network.running n) eqn:Hn; simpl; auto.
Qed.

(** The network and the protocol of a DHT after a start that resolves. *)
Lemma started_state (component_start : Component -> settled unit)
  (this : KadDHT) :
  registrar_accepts this (mode_of this) ->
  (forall c : Component, component_start c = Resolved tt) ->
  network (fst (snd (drain (start component_start this))))
  = Network.start (network this) /\
  protocol (fst (snd (drain (start component_start this)))) = protocol this.
Proof.
  intros (registrar & Hregistrar & Hunhandle & Hhandle) Hall.
  unfold mode_of in *.
  unfold start, setMode, within, bind, put, get, lift, await, call, ret.
  cbn -[Promise_all].
  rewrite (proj2 (components_resolve component_start) (fun c _ => Hall c)).
  rewrite (Hall routingTableRefresh_).
  destruct (clientMode this) eqn:Hmode; cbn;
    rewrite Hregistrar; cbn; rewrite Hunhandle; cbn.
  - split; reflexivity.
  - rewrite Hregistrar. cbn. rewrite (Hhandle eq_refl). cbn. split; reflexivity.
Qed.

(** X19.  A DHT that was constructed and given its components sends
    nothing before it is started.  Once [start()] has resolved, its
    network is started on the components it was given, and every stream a
    request of that network opens is on the DHT's own protocol, the one
    [setMode] registers the handler for. *)
Theorem started_dht_sends_on_its_protocol
  (serialize : Message.Message -> Uint8Array)
  (deserialize : Uint8Array -> settled Message.Message)
  (lp_encode : Uint8Array -> Uint8Array) (lp_decode : Source -> Source)
  (component_start : Component -> settled unit)
  (init : KadDHTInit.KadDHTInit) (c : Components)
  (to : PeerId) (msg : Message.Message) (options : AbortOptions)
  (script : list resume) :
  let dht := KadDHT.init (constructor init) c in
  let started := fst (snd (drain (start component_start dht))) in
  registrar_accepts dht (mode_of dht) ->
  (forall x : Component, component_start x = Resolved tt) ->
  fst (drain (Network.sendRequest serialize deserialize lp_encode lp_decode
                (network dht) to msg options None)) = [] /\
  Network.isStarted (network started) = true /\
  Network.components (network started) = c /\
  protocol started = protocol (constructor init) /\
  Forall (NetworkRuns.addressed to (protocol started)
            (lp_encode (serialize msg)))
    (fst (generator (Network.sendRequest serialize deserialize lp_encode
                       lp_decode (network started) to msg options)
            None script)).
Proof.
  intros dht started Haccepts Hall.
  destruct (started_state component_start dht Haccepts Hall) as (Hn & Hp).
  fold started in Hn, Hp.
  destruct (network_start_keeps (network dht)) as (Hs & Hnp & Hnc).
  rewrite <- Hn in Hs, Hnp, Hnc.
  split; [reflexivity|]. split; [exact Hs|]. split; [exact Hnc|].
  split; [exact Hp|].
  assert (Hsame : Network.protocol (network started) = protocol started).
  { rewrite Hnp, Hp. reflexivity. }
  rewrite <- Hsame.
  destruct (generator _ None script) as [log st] eqn:Hrun.
  apply NetworkMore.sendRequest_discipline in Hrun. simpl. tauto.
Qed.

(** ** The properties at work on a concrete host *)

Import Examples MoreExamples.

Lemma dht_registrar_accepts : registrar_accepts dht (mode_of dht).
Proof.
  eexists. split; [reflexivity|]. split; [reflexivity|]. discriminate.
Defined.

Lemma start_in_order_witness :
  called (fst (drain (start starting dht)))
  = [core (unhandle_ PROTOCOL);
     start_ providers_; start_ queryManager_; network_start_;
     start_ routingTable_; start_ topologyListener_; start_ querySelf_;
     start_ routingTableRefresh_] /\
  isStarted (fst (snd (drain (start starting dht)))) = true.
Proof.
  destruct (start_in_order starting dht dht_registrar_accepts
              (fun c => eq_refl))
    as (Hcalls & _ & Hstarted & _).
  split; [exact Hcalls | exact Hstarted].
Defined.

Lemma started_dht_sends_on_its_protocol_witness :
  Network.isStarted (KadDHT.network startedDht) = true /\
  Forall (NetworkRuns.addressed remote PROTOCOL (lp_encode (serialize request)))
    (fst (generator
            (Network.sendRequest serialize deserialize lp_encode lp_decode
               (KadDHT.network startedDht) remote request noOptions)
            None [Next; Next; Next; Next])).
Proof.
  destruct (started_dht_sends_on_its_protocol serialize deserialize lp_encode
              lp_decode starting defaults (reachable (answering []))
              remote request noOptions [Next; Next; Next; Next]
              dht_registrar_accepts (fun c => eq_refl))
    as (_ & Hstarted & _ & _ & Haddressed).
  split; [exact Hstarted | exact Haddressed].
Defined.

(** With a routing table that refuses to start, the other components
    are started all the same, the refresh is not, and the DHT reports
    that it is running. *)
Example start_with_a_failing_component :
  called (fst (drain (start failing dht)))
  = [core (unhandle_ PROTOCOL);
     start_ providers_; start_ queryManager_; network_start_;
     start_ routingTable_; start_ topologyListener_; start_ querySelf_] /\
  throws (snd (snd (drain (start failing dht)))) = true /\
  isStarted (fst (snd (drain (start failing dht)))) = true.
Proof. repeat split. Qed.

(** On the WAN, the address book's public address gets [peerA] added;
    an unknown peer is ignored without an error. *)
Example topology_peers :
  called (fst (drain (onTopologyPeer isPrivateAddress isPublicAddress
                        routingTable_add addressBook (id peerA) dht)))
  = [addressBook_get_ (id peerA); core (routingTable_add_ (id peerA))] /\
  drain (onTopologyPeer isPrivateAddress isPublicAddress
           routingTable_add addressBook "QmUnknown" dht)
  = ([Called (addressBook_get_ "QmUnknown")], (dht, Normal tt)).
Proof. split; reflexivity. Qed.

End KadDHTMore.
